(** * The subscription worker (src/worker/index.js)

    A shallow embedding of the email subscription worker and of the
    platform functions it calls, followed by the properties of its three
    endpoints.

    Conventions of the model.
    - A JavaScript string is a [string]; each [ascii] is one UTF-16 code
      unit in the range U+0000..U+00FF (Latin-1).  Code units above U+00FF
      are outside the modelled alphabet, and so is what depends on them:
      the lowercase mapping and the whitespace set are those of this
      range.
    - The key-value namespace [env.SUBSCRIBERS] is a [gmap string string].
      One call of [list()] returns a page of at most 1000 key names in the
      lexicographic order of their UTF-8 bytes; [get], [put] and [delete]
      refuse a key longer than 512 bytes.
    - An exception is the [Throw] outcome of the [M] monad; [try]/[catch]
      is [try_catch].
    - Where the model does not cover an input (a JSON text that names a
      code unit above U+00FF, a number whose print is not its lexeme), the
      platform function answers [Throw OutsideModel].  The properties that
      fix the outcome of a request are stated for inputs on which this
      does not arise. *)

From Stdlib Require Import ZArith NArith Ascii String List Bool Lia.
From stdpp Require Import gmap strings list fin_maps sorting.

Local Open Scope string_scope.
#[local] Arguments String.append !s1 s2.

(** ** JavaScript strings *)

Module JS.

(** The double quote character, U+0022. *)
Definition dquote : ascii := "034"%char.

Definition code (c : ascii) : N := N_of_ascii c.

(** WhiteSpace and LineTerminator code units below U+0100: TAB, LF, VT, FF,
    CR, SP and NBSP.  This is both the class [\s] of regular expressions
    and the set that [String.prototype.trim] strips. *)
Definition is_space (c : ascii) : bool :=
  let n := code c in
  ((9 <=? n) && (n <=? 13) || (n =? 32) || (n =? 160))%N.

(** Code units of the alphabet with a lowercase mapping: A-Z,
    U+00C0..U+00D6 and U+00D8..U+00DE; the mapping adds 32. *)
Definition is_upper (c : ascii) : bool :=
  let n := code c in
  ((65 <=? n) && (n <=? 90) || (192 <=? n) && (n <=? 214)
   || (216 <=? n) && (n <=? 222))%N.

Definition lower_char (c : ascii) : ascii :=
  if is_upper c then ascii_of_N (code c + 32) else c.

(** [String.prototype.toLowerCase] on a string of the alphabet, where the
    mapping is character by character. *)
Fixpoint toLowerCase (s : string) : string :=
  match s with
  | EmptyString => EmptyString
  | String c r => String (lower_char c) (toLowerCase r)
  end.

Fixpoint trimStart (s : string) : string :=
  match s with
  | EmptyString => EmptyString
  | String c r => if is_space c then trimStart r else s
  end.

Fixpoint trimEnd (s : string) : string :=
  match s with
  | EmptyString => EmptyString
  | String c r =>
      match trimEnd r with
      | EmptyString => if is_space c then EmptyString else String c EmptyString
      | r' => String c r'
      end
  end.

(** [String.prototype.trim] *)
Definition trim (s : string) : string := trimEnd (trimStart s).

(** ** Regular expressions

    The fragment of the pattern language that the worker uses: character
    classes, concatenation, alternation and repetition.  A pattern anchored
    with [^] and [$] and no flags matches when the whole subject is in its
    language, which [matches] decides with derivatives. *)

Inductive regex : Type :=
| Void : regex
| Eps : regex
| Class : (ascii -> bool) -> regex
| Cat : regex -> regex -> regex
| Alt : regex -> regex -> regex
| Star : regex -> regex.

(** [r+] *)
Definition Plus (r : regex) : regex := Cat r (Star r).

Fixpoint nullable (r : regex) : bool :=
  match r with
  | Void => false
  | Eps => true
  | Class _ => false
  | Cat a b => nullable a && nullable b
  | Alt a b => nullable a || nullable b
  | Star _ => true
  end.

Fixpoint deriv (c : ascii) (r : regex) : regex :=
  match r with
  | Void => Void
  | Eps => Void
  | Class p => if p c then Eps else Void
  | Cat a b =>
      if nullable a then Alt (Cat (deriv c a) b) (deriv c b)
      else Cat (deriv c a) b
  | Alt a b => Alt (deriv c a) (deriv c b)
  | Star a => Cat (deriv c a) (Star a)
  end.

Fixpoint matches (r : regex) (s : string) : bool :=
  match s with
  | EmptyString => nullable r
  | String c t => matches (deriv c r) t
  end.

(** The language of a pattern, as the reference for [matches]. *)
Inductive lang : regex -> string -> Prop :=
| lang_eps : lang Eps EmptyString
| lang_class p c : p c = true -> lang (Class p) (String c EmptyString)
| lang_cat a b s t : lang a s -> lang b t -> lang (Cat a b) (s +:+ t)
| lang_alt_l a b s : lang a s -> lang (Alt a b) s
| lang_alt_r a b s : lang b s -> lang (Alt a b) s
| lang_star_nil a : lang (Star a) EmptyString
| lang_star_cons a c s t :
    lang a (String c s) -> lang (Star a) t -> lang (Star a) (String c s +:+ t).

(** ** Values

    The values that [JSON.parse] produces, and [undefined].  A number is
    carried as the lexeme that denoted it: the worker never computes with
    a number.  The members of an object are its own properties in
    enumeration order. *)

#[warnings="-register-all"]
Inductive value : Type :=
| VUndefined : value
| VNull : value
| VBool : bool -> value
| VNumber : string -> value
| VString : string -> value
| VArray : list value -> value
| VObject : list (string * value) -> value.

(** What a run can end with instead of a result.  [SyntaxError] is thrown
    by [JSON.parse], [TypeError] by a property read on [null] or
    [undefined] and by a call of what is no function, [StorageError] by an
    operation of the namespace on a key that it refuses.  [OutsideModel] is
    no JavaScript exception: it is the outcome on an input that the model
    does not cover.  It travels as an exception does, through [try_catch]
    too, so that every run has an outcome. *)
Inductive exn : Type := SyntaxError | TypeError | StorageError | OutsideModel.

Inductive result (A : Type) : Type :=
| Ok : A -> result A
| Throw : exn -> result A.
Arguments Ok {A} _.
Arguments Throw {A} _.

Fixpoint assoc {A : Type} (k : string) (l : list (string * A)) : option A :=
  match l with
  | [] => None
  | (k', a) :: r => if String.eqb k k' then Some a else assoc k r
  end.

(** [v.name], for a name that no prototype defines (the worker reads
    [email], [token] and [subscribed_at]): reading a property of [null] or
    [undefined] throws, a primitive or an array has no such property. *)
Definition get_prop (v : value) (name : string) : result value :=
  match v with
  | VUndefined | VNull => Throw TypeError
  | VObject ms => Ok (default VUndefined (assoc name ms))
  | _ => Ok VUndefined
  end.

Definition is_digit (c : ascii) : bool := ((48 <=? code c) && (code c <=? 57))%N.

(** A number lexeme whose mantissa has no digit but 0 denotes zero. *)
Fixpoint zero_mantissa (s : string) : bool :=
  match s with
  | EmptyString => true
  | String c r =>
      if (c =? "e")%char || (c =? "E")%char then true
      else if is_digit c && negb (c =? "0")%char then false
      else zero_mantissa r
  end.

(** ToBoolean *)
Definition truthy (v : value) : bool :=
  match v with
  | VUndefined | VNull => false
  | VBool b => b
  | VNumber lexeme => negb (zero_mantissa lexeme)
  | VString s => negb (String.eqb s EmptyString)
  | VArray _ | VObject _ => true
  end.

Fixpoint join (sep : string) (l : list string) : string :=
  match l with
  | [] => EmptyString
  | [a] => a
  | a :: r => a +:+ sep +:+ join sep r
  end.

Fixpoint sequence {A : Type} (l : list (result A)) : result (list A) :=
  match l with
  | [] => Ok []
  | Ok a :: r => match sequence r with Ok r' => Ok (a :: r') | Throw e => Throw e end
  | Throw e :: _ => Throw e
  end.

Fixpoint all_digits (s : string) : bool :=
  match s with
  | EmptyString => true
  | String c r => is_digit c && all_digits r
  end.

(** The number lexemes that JavaScript prints back as they are written:
    [0], and the integers of at most 15 digits without a leading zero, with
    or without a minus sign.  (Such an integer is below 2^53 and is printed
    in full.) *)
Definition canonical_number (lexeme : string) : bool :=
  let digits := match lexeme with
                | String c r => if (c =? "-")%char then r else lexeme
                | EmptyString => lexeme
                end in
  String.eqb lexeme "0" ||
  match digits with
  | String c r =>
      is_digit c && negb (c =? "0")%char && all_digits r && (String.length r <? 15)%nat
  | EmptyString => false
  end.

(** ToString, as applied to the argument of [RegExp.prototype.test].  An
    array is joined with commas, [null] and [undefined] elements giving the
    empty string; an object prints as [[object Object]] unless it has an own
    [toString] property, which from JSON is never callable, and then the
    conversion throws.  A number in canonical form prints as its lexeme;
    the print of another number is outside the model. *)
Fixpoint ToString (v : value) : result string :=
  match v with
  | VUndefined => Ok "undefined"
  | VNull => Ok "null"
  | VBool true => Ok "true"
  | VBool false => Ok "false"
  | VNumber lexeme => if canonical_number lexeme then Ok lexeme else Throw OutsideModel
  | VString s => Ok s
  | VArray l =>
      match sequence (map (fun e => match e with
                                    | VUndefined | VNull => Ok EmptyString
                                    | _ => ToString e
                                    end) l) with
      | Ok parts => Ok (join "," parts)
      | Throw e => Throw e
      end
  | VObject ms =>
      match assoc "toString" ms with
      | Some _ => Throw TypeError
      | None => Ok "[object Object]"
      end
  end.

(** ** JSON text *)

Definition backslash : ascii := "092"%char.

Definition hex_digit (n : N) : ascii :=
  if (n <? 10)%N then ascii_of_N (48 + n) else ascii_of_N (87 + n).

(** QuoteJSONString, without the enclosing quotes. *)
Fixpoint quote_chars (s : string) : string :=
  match s with
  | EmptyString => EmptyString
  | String c r =>
      let n := code c in
      if (c =? dquote)%char then String backslash (String dquote (quote_chars r))
      else if (c =? backslash)%char then String backslash (String backslash (quote_chars r))
      else if (n =? 8)%N then String backslash (String "b" (quote_chars r))
      else if (n =? 9)%N then String backslash (String "t" (quote_chars r))
      else if (n =? 10)%N then String backslash (String "n" (quote_chars r))
      else if (n =? 12)%N then String backslash (String "f" (quote_chars r))
      else if (n =? 13)%N then String backslash (String "r" (quote_chars r))
      else if (n <? 32)%N then
        String backslash (String "u" (String "0" (String "0"
          (String (hex_digit (n / 16)) (String (hex_digit (n mod 16)) (quote_chars r))))))
      else String c (quote_chars r)
  end.

Definition quote (s : string) : string :=
  String dquote (quote_chars s +:+ String dquote EmptyString).

Fixpoint serialize_members (f : value -> option string) (ms : list (string * value))
  : list string :=
  match ms with
  | [] => []
  | (k, v) :: r =>
      match f v with
      | Some t => (quote k +:+ ":" +:+ t) :: serialize_members f r
      | None => serialize_members f r
      end
  end.

(** The text that [JSON.stringify] with one argument gives for a value
    whose numbers are all in canonical form ([printable]).  [None] is the
    result [undefined]; an [undefined] property is left out and an
    [undefined] element prints as [null]. *)
Fixpoint JSON_stringify (v : value) : option string :=
  match v with
  | VUndefined => None
  | VNull => Some "null"
  | VBool true => Some "true"
  | VBool false => Some "false"
  | VNumber lexeme => Some lexeme
  | VString s => Some (quote s)
  | VArray l =>
      Some ("[" +:+ join "," (map (fun e => default "null" (JSON_stringify e)) l) +:+ "]")
  | VObject ms =>
      Some ("{" +:+ join "," (serialize_members JSON_stringify ms) +:+ "}")
  end.

(** The values whose numbers all print as their lexemes. *)
Fixpoint printable (v : value) : bool :=
  match v with
  | VNumber lexeme => canonical_number lexeme
  | VArray l => forallb printable l
  | VObject ms => forallb (fun '(_, m) => printable m) ms
  | _ => true
  end.

(** [JSON.stringify] with one argument; the text of a value with another
    number is outside the model. *)
Definition stringify (v : value) : result (option string) :=
  if printable v then Ok (JSON_stringify v) else Throw OutsideModel.

(** [JSON.parse].  Whitespace is SP, TAB, LF and CR. *)
Definition is_ws (c : ascii) : bool :=
  let n := code c in ((n =? 32) || (n =? 9) || (n =? 10) || (n =? 13))%N.

Fixpoint skip_ws (s : string) : string :=
  match s with
  | EmptyString => EmptyString
  | String c r => if is_ws c then skip_ws r else s
  end.

Definition hex_val (c : ascii) : option N :=
  let n := code c in
  if ((48 <=? n) && (n <=? 57))%N then Some (n - 48)%N
  else if ((97 <=? n) && (n <=? 102))%N then Some (n - 87)%N
  else if ((65 <=? n) && (n <=? 70))%N then Some (n - 55)%N
  else None.

Definition hex4 (a b c d : ascii) : option N :=
  match hex_val a, hex_val b, hex_val c, hex_val d with
  | Some x, Some y, Some z, Some w => Some (((x * 16 + y) * 16 + z) * 16 + w)%N
  | _, _, _, _ => None
  end.

Definition unescape (e : ascii) : option ascii :=
  if (e =? dquote)%char then Some dquote
  else if (e =? backslash)%char then Some backslash
  else if (e =? "/")%char then Some "/"%char
  else if (e =? "b")%char then Some "008"%char
  else if (e =? "f")%char then Some "012"%char
  else if (e =? "n")%char then Some "010"%char
  else if (e =? "r")%char then Some "013"%char
  else if (e =? "t")%char then Some "009"%char
  else None.

(** What a parser returns: a result and the text that follows it, a
    syntax error, or no answer, for lack of fuel or because the text leaves
    the model. *)
Inductive parsed (A : Type) : Type :=
| Done : A -> string -> parsed A
| Fail : parsed A
| OutOfFuel : parsed A
| Beyond : parsed A.
Arguments Done {A} _ _.
Arguments Fail {A}.
Arguments OutOfFuel {A}.
Arguments Beyond {A}.

Definition push (c : ascii) (r : parsed string) : parsed string :=
  match r with
  | Done s rest => Done (String c s) rest
  | other => other
  end.

(** The characters of a string literal after its opening quote, up to the
    closing quote, and the text that follows.  A [\u] escape that names a
    code unit above U+00FF is well formed but leaves the alphabet. *)
Fixpoint parse_chars (s : string) : parsed string :=
  match s with
  | EmptyString => Fail
  | String c r =>
      if (c =? dquote)%char then Done EmptyString r
      else if (c =? backslash)%char then
        match r with
        | EmptyString => Fail
        | String e r1 =>
            if (e =? "u")%char then
              match r1 with
              | String h1 (String h2 (String h3 (String h4 r2))) =>
                  match hex4 h1 h2 h3 h4 with
                  | Some n => if (n <? 256)%N then push (ascii_of_N n) (parse_chars r2)
                              else Beyond
                  | None => Fail
                  end
              | _ => Fail
              end
            else
              match unescape e with
              | Some c' => push c' (parse_chars r1)
              | None => Fail
              end
        end
      else if (code c <? 32)%N then Fail
      else push c (parse_chars r)
  end.

(** The longest prefix of decimal digits, and the rest. *)
Fixpoint span_digits (s : string) : string * string :=
  match s with
  | EmptyString => (EmptyString, EmptyString)
  | String c r =>
      if is_digit c then let '(d, rest) := span_digits r in (String c d, rest)
      else (EmptyString, s)
  end.

(** The text after the character [c], when [s] starts with it. *)
Definition starts_with (c : ascii) (s : string) : option string :=
  match s with
  | String d r => if (d =? c)%char then Some r else None
  | EmptyString => None
  end.

Definition parse_int (s : string) : option (string * string) :=
  match s with
  | String c r =>
      if (c =? "0")%char then Some ("0", r)
      else if is_digit c then let '(d, rest) := span_digits r in Some (String c d, rest)
      else None
  | EmptyString => None
  end.

Definition parse_frac (s : string) : option (string * string) :=
  match starts_with "." s with
  | Some r =>
      match span_digits r with
      | (EmptyString, _) => None
      | (d, rest) => Some (String "." d, rest)
      end
  | None => Some (EmptyString, s)
  end.

Definition parse_sign (s : string) : string * string :=
  match starts_with "+" s with
  | Some r => ("+", r)
  | None =>
      match starts_with "-" s with
      | Some r => ("-", r)
      | None => (EmptyString, s)
      end
  end.

Definition parse_exp (s : string) : option (string * string) :=
  match s with
  | String c r =>
      if (c =? "e")%char || (c =? "E")%char then
        let '(sign, r1) := parse_sign r in
        match span_digits r1 with
        | (EmptyString, _) => None
        | (d, rest) => Some (String c (sign +:+ d), rest)
        end
      else Some (EmptyString, s)
  | EmptyString => Some (EmptyString, s)
  end.

Definition parse_number (s : string) : option (string * string) :=
  let '(sign, s1) :=
    match starts_with "-" s with
    | Some r => ("-", r)
    | None => (EmptyString, s)
    end in
  match parse_int s1 with
  | None => None
  | Some (i, s2) =>
      match parse_frac s2 with
      | None => None
      | Some (f, s3) =>
          match parse_exp s3 with
          | None => None
          | Some (e, s4) => Some (sign +:+ i +:+ f +:+ e, s4)
          end
      end
  end.

Fixpoint strip_prefix (p s : string) : option string :=
  match p, s with
  | EmptyString, _ => Some s
  | String a p', String b s' => if (a =? b)%char then strip_prefix p' s' else None
  | String _ _, EmptyString => None
  end.

Fixpoint digits_value (acc : N) (s : string) : option N :=
  match s with
  | EmptyString => Some acc
  | String c r =>
      if is_digit c then digits_value (acc * 10 + (code c - 48))%N r else None
  end.

(** A property name is an array index when it is the canonical decimal form
    of an integer below 2^32 - 1; such properties enumerate first, in
    ascending order. *)
Definition array_index (k : string) : option N :=
  match k with
  | EmptyString => None
  | String c r =>
      if (c =? "0")%char && negb (String.eqb r EmptyString) then None
      else match digits_value 0 k with
           | Some n => if (n <? 4294967295)%N then Some n else None
           | None => None
           end
  end.

Fixpoint replace_member (k : string) (v : value) (ms : list (string * value))
  : list (string * value) :=
  match ms with
  | [] => []
  | (k', v') :: r =>
      if String.eqb k k' then (k', v) :: r else (k', v') :: replace_member k v r
  end.

Fixpoint insert_index (i : N) (k : string) (v : value) (ms : list (string * value))
  : list (string * value) :=
  match ms with
  | [] => [(k, v)]
  | (k', v') :: r =>
      match array_index k' with
      | Some j => if (j <? i)%N then (k', v') :: insert_index i k v r
                  else (k, v) :: ms
      | None => (k, v) :: ms
      end
  end.

(** CreateDataProperty on an ordinary object: a name already present keeps
    its place and takes the new value. *)
Definition define_property (ms : list (string * value)) (kv : string * value)
  : list (string * value) :=
  let '(k, v) := kv in
  match assoc k ms with
  | Some _ => replace_member k v ms
  | None =>
      match array_index k with
      | Some i => insert_index i k v ms
      | None => (ms ++ [(k, v)])%list
      end
  end.

Definition make_object (members : list (string * value)) : value :=
  VObject (fold_left define_property members []).

Fixpoint parse_value (n : nat) (s : string) {struct n} : parsed value :=
  match n with
  | O => OutOfFuel
  | S n' =>
      match skip_ws s with
      | EmptyString => Fail
      | String c r =>
          if (c =? "{")%char then
            match starts_with "}" (skip_ws r) with
            | Some r' => Done (VObject []) r'
            | None =>
                match parse_members n' r with
                | Done ms rest => Done (make_object ms) rest
                | Fail => Fail
                | OutOfFuel => OutOfFuel
                | Beyond => Beyond
                end
            end
          else if (c =? "[")%char then
            match starts_with "]" (skip_ws r) with
            | Some r' => Done (VArray []) r'
            | None =>
                match parse_elements n' r with
                | Done vs rest => Done (VArray vs) rest
                | Fail => Fail
                | OutOfFuel => OutOfFuel
                | Beyond => Beyond
                end
            end
          else if (c =? dquote)%char then
            match parse_chars r with
            | Done str rest => Done (VString str) rest
            | Fail => Fail
            | OutOfFuel => OutOfFuel
            | Beyond => Beyond
            end
          else
            match strip_prefix "true" (String c r) with
            | Some rest => Done (VBool true) rest
            | None =>
            match strip_prefix "false" (String c r) with
            | Some rest => Done (VBool false) rest
            | None =>
            match strip_prefix "null" (String c r) with
            | Some rest => Done VNull rest
            | None =>
            match parse_number (String c r) with
            | Some (lexeme, rest) => Done (VNumber lexeme) rest
            | None => Fail
            end end end end
      end
  end

with parse_elements (n : nat) (s : string) {struct n} : parsed (list value) :=
  match n with
  | O => OutOfFuel
  | S n' =>
      match parse_value n' s with
      | Done v rest =>
          match skip_ws rest with
          | String c r =>
              if (c =? ",")%char then
                match parse_elements n' r with
                | Done vs rest' => Done (v :: vs) rest'
                | Fail => Fail
                | OutOfFuel => OutOfFuel
                | Beyond => Beyond
                end
              else if (c =? "]")%char then Done [v] r
              else Fail
          | EmptyString => Fail
          end
      | Fail => Fail
      | OutOfFuel => OutOfFuel
      | Beyond => Beyond
      end
  end

with parse_members (n : nat) (s : string) {struct n} : parsed (list (string * value)) :=
  match n with
  | O => OutOfFuel
  | S n' =>
      match starts_with dquote (skip_ws s) with
      | Some r =>
          match parse_chars r with
          | Done k r1 =>
              match starts_with ":" (skip_ws r1) with
              | Some r2 =>
                  match parse_value n' r2 with
                  | Done v rest =>
                      match skip_ws rest with
                      | String c r3 =>
                          if (c =? ",")%char then
                            match parse_members n' r3 with
                            | Done ms rest' => Done ((k, v) :: ms) rest'
                            | Fail => Fail
                            | OutOfFuel => OutOfFuel
                            | Beyond => Beyond
                            end
                          else if (c =? "}")%char then Done [(k, v)] r3
                          else Fail
                      | EmptyString => Fail
                      end
                  | Fail => Fail
                  | OutOfFuel => OutOfFuel
                  | Beyond => Beyond
                  end
              | None => Fail
              end
          | Fail => Fail
          | OutOfFuel => OutOfFuel
          | Beyond => Beyond
          end
      | None => Fail
      end
  end.

(** Every level of the parser consumes a character at least every second
    call, so twice the length of the text is fuel enough. *)
Definition parse_fuel (s : string) : nat := 2 * String.length s + 2.

(** [JSON.parse] of a text.  The parser reads from left to right and stops
    at the first character that is no JSON, so a text is answered
    [SyntaxError] only when it is not JSON; a text that names a code unit
    above U+00FF before any such character is outside the model. *)
Definition JSON_parse (s : string) : result value :=
  match parse_value (parse_fuel s) s with
  | Done v rest =>
      match skip_ws rest with
      | EmptyString => Ok v
      | String _ _ => Throw SyntaxError
      end
  | Fail => Throw SyntaxError
  | OutOfFuel | Beyond => Throw OutsideModel
  end.

End JS.


(** ** The key-value namespace and the handler monad *)

Import JS.

Abbreviation store := (gmap string string).

(** A handler runs against the namespace and either returns or throws; the
    writes made before an exception stay.  A namespace that exists holds no
    key that [KV.refused] describes; such states of [store] are states of no
    namespace. *)
Definition M (A : Type) : Type := store -> result A * store.

Definition ret {A : Type} (a : A) : M A := fun st => (Ok a, st).

Definition bind {A B : Type} (m : M A) (f : A -> M B) : M B :=
  fun st =>
    match m st with
    | (Ok a, st') => f a st'
    | (Throw e, st') => (Throw e, st')
    end.

Definition lift {A : Type} (r : result A) : M A := fun st => (r, st).

Definition try_catch {A : Type} (m : M A) (handler : exn -> M A) : M A :=
  fun st =>
    match m st with
    | (Ok a, st') => (Ok a, st')
    | (Throw e, st') => handler e st'
    end.

Notation "'do' x <- m ; k" := (bind m (fun x => k))
  (at level 10, x name, m at level 100, k at level 200).
Notation "'do_' m ; k" := (bind m (fun _ => k))
  (at level 10, m at level 100, k at level 200).

(** The operations of the namespace (Workers KV), as the worker calls
    them: with a key and no option. *)
Module KV.

(** The length of a key in UTF-8 bytes: a code unit below U+0080 is one
    byte, another code unit of the alphabet is two. *)
Fixpoint utf8_length (s : string) : nat :=
  match s with
  | EmptyString => 0
  | String c r => (if (code c <? 128)%N then 1 else 2) + utf8_length r
  end.

(** The namespace refuses a key longer than 512 bytes: the operation
    throws.  (It also refuses the empty key and the keys [.] and [..], which
    no email that passes validation is.) *)
Definition refused (key : string) : bool := (512 <? utf8_length key)%nat.

(** [get(key)]: the stored text, [null] for a key without a value, or the
    refusal.  No namespace holds a refused key, so looking the key up first
    changes nothing on a namespace and keeps [get] defined on every
    [store]. *)
Definition get (key : string) : M (option string) :=
  fun st =>
    match st !! key with
    | Some text => (Ok (Some text), st)
    | None => if refused key then (Throw StorageError, st) else (Ok None, st)
    end.

(** [put(key, text)] *)
Definition put (key text : string) : M unit :=
  fun st => if refused key then (Throw StorageError, st) else (Ok tt, <[key := text]> st).

(** [delete(key)] *)
Definition delete (key : string) : M unit :=
  fun st =>
    match st !! key with
    | Some _ => (Ok tt, base.delete key st)
    | None => if refused key then (Throw StorageError, st) else (Ok tt, st)
    end.

Definition page_size : nat := 1000.

(** The key names of one page: the first [page_size] keys in lexicographic
    order.  On this alphabet the order of the UTF-8 bytes is the order of
    the code units, which [String.le] compares. *)
Definition keys (st : store) : list string :=
  take page_size (merge_sort String.le (map_to_list st).*1).

(** [list()]: the key names of the first page.  The worker reads
    [list.keys] and follows no cursor. *)
Definition list : M (list string) := fun st => (Ok (keys st), st).

End KV.

(** ** The worker *)

Record Request : Type := {
  method : string;
  pathname : string;
  searchParams : list (string * string);
  body_text : string
}.

Record Response : Type := {
  body : option string;
  status : Z;
  headers : list (string * string)
}.

(** What [crypto.randomUUID()] and [new Date().toISOString()] give during
    one invocation. *)
Record Runtime : Type := {
  randomUUID : string;
  toISOString : string
}.

Definition CORS_HEADERS : list (string * string) :=
  [ ("Access-Control-Allow-Origin", "*");
    ("Access-Control-Allow-Methods", "GET, POST, OPTIONS");
    ("Access-Control-Allow-Headers", "Content-Type") ].

Definition generateToken (rt : Runtime) : string := randomUUID rt.

Definition not_space_at (c : ascii) : bool := negb (is_space c || (c =? "@")%char).

(** [/^[^\s@]+@[^\s@]+\.[^\s@]+$/] *)
Definition email_pattern : regex :=
  Cat (Plus (Class not_space_at))
 (Cat (Class (Ascii.eqb "@"))
 (Cat (Plus (Class not_space_at))
 (Cat (Class (Ascii.eqb "."))
      (Plus (Class not_space_at))))).

(** [RegExp.prototype.test]: the argument is converted to a string. *)
Definition test (r : regex) (v : value) : result bool :=
  match ToString v with
  | Ok s => Ok (matches r s)
  | Throw e => Throw e
  end.

Definition isValidEmail (email : value) : result bool := test email_pattern email.

(** [email.toLowerCase().trim()]: only a string has the method. *)
Definition normalize (email : value) : result string :=
  match email with
  | VString s => Ok (trim (toLowerCase s))
  | _ => Throw TypeError
  end.

(** [if (x)] on what [get] returned. *)
Definition present (data : option string) : bool :=
  match data with
  | Some text => negb (String.eqb text EmptyString)
  | None => false
  end.

Definition json_headers_cors : list (string * string) :=
  ("Content-Type", "application/json") :: CORS_HEADERS.

(** The body of a response that is a fixed object of strings. *)
Definition json_body (v : value) : option string := JSON_stringify v.

Definition handleSubscribe (request : Request) (rt : Runtime) : M Response :=
  try_catch
    (do parsed <- lift (JSON_parse (body_text request)) ;
     do email <- lift (get_prop parsed "email") ;
     do invalid <- (if negb (truthy email) then ret true
                    else (do ok <- lift (isValidEmail email) ; ret (negb ok))) ;
     if (invalid : bool) then
       ret {| body := json_body (VObject [("error", VString "Invalid email")]);
              status := 400;
              headers := json_headers_cors |}
     else
       do normalizedEmail <- lift (normalize email) ;
       do existing <- KV.get normalizedEmail ;
       if present existing then
         ret {| body := json_body (VObject [("message", VString "Already subscribed")]);
                status := 200;
                headers := json_headers_cors |}
       else
         let token := generateToken rt in
         let data := VObject [("token", VString token);
                              ("subscribed_at", VString (toISOString rt))] in
         do_ match JSON_stringify data with
             | Some text => KV.put normalizedEmail text
             | None => lift (Throw TypeError)
             end ;
         ret {| body := json_body (VObject [("message", VString "Subscribed successfully")]);
                status := 200;
                headers := json_headers_cors |})
    (fun _ =>
       ret {| body := json_body (VObject [("error", VString "Server error")]);
              status := 500;
              headers := json_headers_cors |}).

Definition dq : string := String dquote EmptyString.

Definition htmlPage (title message : string) : string :=
  "<!DOCTYPE html>
<html>
<head>
  <meta charset=" +:+
  dq +:+ "UTF-8" +:+ dq +:+ ">
  <meta name=" +:+
  dq +:+ "viewport" +:+ dq +:+ " content=" +:+ dq +:+ "width=device-width, initial-scale=1.0" +:+
  dq +:+ ">
  <title>" +:+
  title +:+ " - Quality Jobs</title>
  <style>
    body { font-family: -apple-system, BlinkMacSystemFont, sans-serif; display: flex; justify-content: center; align-items: center; min-height: 100vh; margin: 0; background: #f5f5f5; }
    .card { background: white; padding: 40px; border-radius: 8px; box-shadow: 0 2px 10px rgba(0,0,0,0.1); text-align: center; max-width: 400px; }
    h1 { margin: 0 0 16px; color: #333; }
    p { color: #666; margin: 0; }
    a { color: #0066cc; }
  </style>
</head>
<body>
  <div class=" +:+
  dq +:+ "card" +:+ dq +:+ ">
    <h1>" +:+
  title +:+ "</h1>
    <p>" +:+
  message +:+ "</p>
    <p style=" +:+
  dq +:+ "margin-top: 20px;" +:+ dq +:+ "><a href=" +:+ dq +:+ "https://dankopenko.github.io/QualityJobs/" +:+
  dq +:+ ">Back to Quality Jobs</a></p>
  </div>
</body>
</html>".

Definition html_response (code : Z) (title message : string) : Response :=
  {| body := Some (htmlPage title message);
     status := code;
     headers := [("Content-Type", "text/html")] |}.

(** [parsed.token === token] for a string [token]. *)
Definition strict_equals_string (v : value) (s : string) : bool :=
  match v with
  | VString t => String.eqb t s
  | _ => false
  end.

(** The loop of [handleUnsubscribe]; the result is [found]. *)
Fixpoint unsubscribe_scan (token : string) (keys : list string) : M bool :=
  match keys with
  | [] => ret false
  | key :: rest =>
      do data <- KV.get key ;
      match data with
      | Some text =>
          if present data then
            do parsed <- lift (JSON_parse text) ;
            do t <- lift (get_prop parsed "token") ;
            if strict_equals_string t token then
              do_ KV.delete key ; ret true
            else unsubscribe_scan token rest
          else unsubscribe_scan token rest
      | None => unsubscribe_scan token rest
      end
  end.

Definition handleUnsubscribe (request : Request) : M Response :=
  let token := assoc "token" (searchParams request) in
  match token with
  | Some tok =>
      if present token then
        do keys <- KV.list ;
        do found <- unsubscribe_scan tok keys ;
        if (found : bool) then
          ret (html_response 200 "Unsubscribed" "You have been unsubscribed from job alerts.")
        else
          ret (html_response 404 "Not Found" "Subscription not found or already unsubscribed.")
      else ret (html_response 400 "Error" "Invalid unsubscribe link.")
  | None => ret (html_response 400 "Error" "Invalid unsubscribe link.")
  end.

Definition subscriber (email : string) (token subscribed_at : value) : value :=
  VObject [("email", VString email); ("token", token); ("subscribed_at", subscribed_at)].

(** The loop of [handleListSubscribers]; the result is [subscribers]. *)
Fixpoint list_scan (keys : list string) : M (list value) :=
  match keys with
  | [] => ret []
  | key :: rest =>
      do data <- KV.get key ;
      match data with
      | Some text =>
          if present data then
            do parsed <- lift (JSON_parse text) ;
            do token <- lift (get_prop parsed "token") ;
            do subscribed_at <- lift (get_prop parsed "subscribed_at") ;
            do more <- list_scan rest ;
            ret (subscriber key token subscribed_at :: more)
          else list_scan rest
      | None => list_scan rest
      end
  end.

(** [key !== env.API_SECRET]: the parameter is a string or [null], the
    binding a string or [undefined]. *)
Definition differs (key API_SECRET : option string) : bool :=
  match key, API_SECRET with
  | Some k, Some secret => negb (String.eqb k secret)
  | _, _ => true
  end.

Definition handleListSubscribers (request : Request) (API_SECRET : option string)
  : M Response :=
  let key := assoc "key" (searchParams request) in
  if differs key API_SECRET then
    ret {| body := json_body (VObject [("error", VString "Unauthorized")]);
           status := 401;
           headers := [("Content-Type", "application/json")] |}
  else
    do keys <- KV.list ;
    do subscribers <- list_scan keys ;
    do text <- lift (stringify (VObject [("subscribers", VArray subscribers)])) ;
    ret {| body := text;
           status := 200;
           headers := [("Content-Type", "application/json")] |}.

Definition fetch (request : Request) (API_SECRET : option string) (rt : Runtime)
  : M Response :=
  if String.eqb (method request) "OPTIONS" then
    ret {| body := None; status := 200; headers := CORS_HEADERS |}
  else if String.eqb (pathname request) "/subscribe" && String.eqb (method request) "POST" then
    handleSubscribe request rt
  else if String.eqb (pathname request) "/unsubscribe" && String.eqb (method request) "GET" then
    handleUnsubscribe request
  else if String.eqb (pathname request) "/subscribers" && String.eqb (method request) "GET" then
    handleListSubscribers request API_SECRET
  else
    ret {| body := Some "Not Found"; status := 404; headers := [] |}.


(** ** The company-name snippet (src/unnamed/part_000)

    The snippet runs in a browser console.  [top_texts] and [growth_texts]
    are the [textContent] of the elements that the two selectors match, in
    document order; [companies] is the list that the snippet logs and
    copies. *)

Module Scraper.

(** [String.prototype.includes] *)
Fixpoint includes (s needle : string) : bool :=
  String.prefix needle s ||
  match s with
  | EmptyString => false
  | String _ r => includes r needle
  end.

Definition fromTopList (top_texts : list string) : list string :=
  List.filter (fun name => (0 <? String.length name)%nat) (map trim top_texts).

Definition fromGrowthList (growth_texts : list string) : list string :=
  List.filter (fun name => (0 <? String.length name)%nat && negb (includes name "http"))
              (map trim growth_texts).

Definition companies (top_texts growth_texts : list string) : list string :=
  if (0 <? length (fromTopList top_texts))%nat then fromTopList top_texts
  else fromGrowthList growth_texts.

End Scraper.

(** ** Notions used to state the properties *)

Fixpoint all_chars (p : ascii -> bool) (s : string) : bool :=
  match s with
  | EmptyString => true
  | String c r => p c && all_chars p r
  end.

(** No character of [s] is whitespace. *)
Definition no_space (s : string) : Prop := all_chars (fun c => negb (is_space c)) s = true.

(** Every character class of [r] lies within [q]. *)
Fixpoint classes_within (q : ascii -> bool) (r : regex) : Prop :=
  match r with
  | Void | Eps => True
  | Class p => forall c, p c = true -> q c = true
  | Cat a b | Alt a b => classes_within q a /\ classes_within q b
  | Star a => classes_within q a
  end.

(** The value bound to [email] by [const { email } = await request.json()]. *)
Definition request_email (request : Request) : result value :=
  match JSON_parse (body_text request) with
  | Ok parsed => get_prop parsed "email"
  | Throw e => Throw e
  end.

(** A response with the given status whose body is the JSON object with the
    single string property [field]. *)
Definition json_reply (r : Response) (code : Z) (field message : string) : Prop :=
  status r = code /\ body r = JSON_stringify (VObject [(field, VString message)]).

(** The text that Subscribe stores for a new record. *)
Definition record_text (token subscribed_at : string) : string :=
  "{" +:+ ((quote "token" +:+ ":" +:+ quote token) +:+ "," +:+
           (quote "subscribed_at" +:+ ":" +:+ quote subscribed_at)) +:+ "}".

(** The number of records stored under [key]. *)
Definition records_under (key : string) (st : store) : nat :=
  length (List.filter (fun kv => String.eqb (fst kv) key) (map_to_list st)).

(** Two characters that are the same letter, in either case. *)
Definition same_letter (a b : ascii) : Prop :=
  a = b \/ (is_upper a = true /\ b = lower_char a) \/ (is_upper b = true /\ a = lower_char b).

Inductive same_up_to_case : string -> string -> Prop :=
| same_nil : same_up_to_case EmptyString EmptyString
| same_cons a b s t :
    same_letter a b -> same_up_to_case s t -> same_up_to_case (String a s) (String b t).

(** Two inputs that differ only in letter case or in surrounding
    whitespace: each is a core between two runs of whitespace, and the
    cores are the same up to case. *)
Definition differ_only_in_case_or_padding (e1 e2 : string) : Prop :=
  exists p1 c1 q1 p2 c2 q2,
    e1 = p1 +:+ c1 +:+ q1 /\ e2 = p2 +:+ c2 +:+ q2 /\
    all_chars is_space p1 = true /\ all_chars is_space q1 = true /\
    all_chars is_space p2 = true /\ all_chars is_space q2 = true /\
    same_up_to_case c1 c2.

(** The request that a client sends to subscribe [email]. *)
Definition subscribe_request (email : string) : Request :=
  {| method := "POST";
     pathname := "/subscribe";
     searchParams := [];
     body_text := "{" +:+ quote "email" +:+ ":" +:+ quote email +:+ "}" |}.

Definition runtime (uuid time : string) : Runtime :=
  {| randomUUID := uuid; toISOString := time |}.

(** The request of an unsubscribe link, and of the admin listing. *)
Definition unsubscribe_request (token : string) : Request :=
  {| method := "GET";
     pathname := "/unsubscribe";
     searchParams := [("token", token)];
     body_text := EmptyString |}.

Definition subscribers_request (key : string) : Request :=
  {| method := "GET";
     pathname := "/subscribers";
     searchParams := [("key", key)];
     body_text := EmptyString |}.

(** The keys that the scans visit, in scan order: the page that [list()]
    returns. *)
Definition scan_order (st : store) : list string := KV.keys st.

(** The scans pass over a key whose value reads back as missing or empty. *)
Definition skipped (st : store) (key : string) : Prop :=
  exists data, KV.get key st = (Ok data, st) /\ present data = false.

(** The record under [key] parses, and its [token] and [subscribed_at]
    fields read as [token] and [subscribed_at]. *)
Definition record_is (st : store) (key : string) (token subscribed_at : value) : Prop :=
  exists text parsed,
    st !! key = Some text /\ text <> EmptyString /\
    JSON_parse text = Ok parsed /\
    get_prop parsed "token" = Ok token /\
    get_prop parsed "subscribed_at" = Ok subscribed_at.

(** The [token] field of the record under [key] is the string [token]. *)
Definition token_matches (st : store) (key token : string) : Prop :=
  exists subscribed_at, record_is st key (VString token) subscribed_at.

(** The record under [key] does not stop a scan for [token]: it is skipped,
    or it parses and has another token. *)
Definition passed_over (token : string) (st : store) (key : string) : Prop :=
  skipped st key \/
  exists t subscribed_at, record_is st key t subscribed_at /\ t <> VString token.

(** The record under [key] does not stop the listing. *)
Definition listable (st : store) (key : string) : Prop :=
  skipped st key \/ exists t subscribed_at, record_is st key t subscribed_at.


(** Every stored value is empty or parses as JSON to something other than
    [null]. *)
Definition well_formed (st : store) : Prop :=
  forall key text, st !! key = Some text -> text <> EmptyString ->
    exists parsed, JSON_parse text = Ok parsed /\ parsed <> VNull.


(** Every number in a stored value is in canonical form. *)
Definition canonical_numbers (st : store) : Prop :=
  forall key text parsed,
    st !! key = Some text -> JSON_parse text = Ok parsed -> printable parsed = true.


(** The cross-origin headers among the headers of a response. *)
Definition cors_headers (r : Response) : list (string * string) :=
  List.filter (fun h => String.prefix "Access-Control-" (fst h)) (headers r).

(** A run of one or more characters that are neither whitespace nor [@]. *)
Definition plain (s : string) : Prop :=
  s <> EmptyString /\ all_chars not_space_at s = true.

(** The store after the worker has answered the requests in turn, each with
    what the platform gave it for a token and a date. *)
Fixpoint serve (API_SECRET : option string) (requests : list (Request * Runtime))
    (st : store) : store :=
  match requests with
  | [] => st
  | (request, rt) :: rest => serve API_SECRET rest (fetch request API_SECRET rt st).2
  end.

(** What a store holds when only the worker has written it: every key is an
    email that passes validation and is in lower case, every value is the
    text of a record. *)
Definition worker_written (st : store) : Prop :=
  forall key text, st !! key = Some text ->
    isValidEmail (VString key) = Ok true /\ toLowerCase key = key /\
    exists token subscribed_at, text = record_text token subscribed_at.

(** The keys that a scan does not skip, in scan order. *)
Definition present_keys (st : store) : list string :=
  List.filter (fun key => present (st !! key)) (scan_order st).

(** * Regular expressions: [matches] decides [lang] *)

Section Regex.

Lemma append_nil_inv (s t : string) :
  s +:+ t = EmptyString -> s = EmptyString /\ t = EmptyString.
Proof. destruct s; simpl; [tauto | discriminate]. Qed.

Lemma append_empty_r (s : string) : s +:+ EmptyString = s.
Proof. induction s as [|c s IH]; simpl; [reflexivity | now rewrite IH]. Qed.

Lemma append_assoc (s t u : string) : (s +:+ t) +:+ u = s +:+ (t +:+ u).
Proof. induction s as [|c s IH]; simpl; [reflexivity | now rewrite IH]. Qed.

Lemma nullable_lang (r : regex) : nullable r = true <-> lang r EmptyString.
Proof.
  split.
  - induction r as [| |p|a IHa b IHb|a IHa b IHb|a IHa]; simpl; intros H;
      try discriminate.
    + constructor.
    + apply andb_prop in H as [Ha Hb].
      change EmptyString with (EmptyString +:+ EmptyString).
      constructor; auto.
    + apply orb_prop in H as [H|H]; [apply lang_alt_l | apply lang_alt_r]; auto.
    + constructor.
  - intros H. remember EmptyString as e eqn:He.
    induction H as [|p c Hp|a b s t Hs IHs Ht IHt|a b s Hs IHs|a b s Hs IHs|a
                   |a c s t Hs IHs Ht IHt]; simpl; try reflexivity; try discriminate.
    + apply append_nil_inv in He as [-> ->]. now rewrite IHs, IHt.
    + now rewrite IHs.
    + rewrite IHs by assumption. apply orb_true_r.
Qed.

Lemma deriv_sound (c : ascii) (r : regex) (s : string) :
  lang (deriv c r) s -> lang r (String c s).
Proof.
  revert s.
  induction r as [| |p|a IHa b IHb|a IHa b IHb|a IHa]; simpl; intros s H.
  - inversion H.
  - inversion H.
  - destruct (p c) eqn:Hp; inversion H; subst. now constructor.
  - destruct (nullable a) eqn:Hn.
    + inversion H as [| | | ? ? ? H1 | ? ? ? H1 | |]; subst.
      * inversion H1 as [| |? ? u v Hu Hv| | | |]; subst.
        change (String c (u +:+ v)) with (String c u +:+ v).
        constructor; auto.
      * change (String c s) with (EmptyString +:+ String c s).
        constructor; [now apply nullable_lang | auto].
    + inversion H as [| |? ? u v Hu Hv| | | |]; subst.
      change (String c (u +:+ v)) with (String c u +:+ v).
      constructor; auto.
  - inversion H; subst; [apply lang_alt_l | apply lang_alt_r]; auto.
  - inversion H as [| |? ? u v Hu Hv| | | |]; subst.
    change (String c (u +:+ v)) with (String c u +:+ v).
    apply lang_star_cons; auto.
Qed.

Lemma deriv_complete (r : regex) (x : string) :
  lang r x -> forall c s, x = String c s -> lang (deriv c r) s.
Proof.
  induction 1 as [|p c' Hp|a b u v Hu IHu Hv IHv|a b u Hu IHu|a b u Hu IHu|a
                 |a c' u v Hu IHu Hv IHv]; intros c s E; simpl.
  - discriminate.
  - injection E as -> <-. rewrite Hp. constructor.
  - destruct u as [|d u]; simpl in E.
    + assert (Hn : nullable a = true) by now apply nullable_lang.
      rewrite Hn. apply lang_alt_r. now apply IHv.
    + injection E as -> <-.
      destruct (nullable a).
      * apply lang_alt_l. constructor; auto.
      * constructor; auto.
  - apply lang_alt_l; auto.
  - apply lang_alt_r; auto.
  - discriminate.
  - simpl in E. injection E as -> <-. constructor; auto.
Qed.

Lemma matches_lang (r : regex) (s : string) : matches r s = true <-> lang r s.
Proof.
  revert r. induction s as [|c s IH]; intros r; simpl.
  - apply nullable_lang.
  - rewrite IH. split; [apply deriv_sound | intros H; now apply (deriv_complete r _ H)].
Qed.

Lemma all_chars_append (p : ascii -> bool) (s t : string) :
  all_chars p (s +:+ t) = all_chars p s && all_chars p t.
Proof.
  induction s as [|c s IH]; [reflexivity |].
  change (p c && all_chars p (s +:+ t) = p c && all_chars p s && all_chars p t).
  now rewrite IH, andb_assoc.
Qed.

Lemma lang_all_chars (q : ascii -> bool) (r : regex) (s : string) :
  lang r s -> classes_within q r -> all_chars q s = true.
Proof.
  induction 1 as [|p c Hp|a b u v Hu IHu Hv IHv|a b u Hu IHu|a b u Hu IHu|a
                 |a c u v Hu IHu Hv IHv]; simpl; intros Hq; try reflexivity.
  - now rewrite (Hq c Hp).
  - destruct Hq as [Ha Hb]. now rewrite all_chars_append, IHu, IHv.
  - apply IHu, Hq.
  - apply IHu, Hq.
  - change (all_chars q (String c u +:+ v) = true).
    rewrite all_chars_append, IHu, IHv by assumption. reflexivity.
Qed.

End Regex.

(** * Validation and normalization *)

Section Normalization.

Lemma is_space_lower_char (c : ascii) : is_space (lower_char c) = is_space c.
Proof. destruct c as [[] [] [] [] [] [] [] []]; reflexivity. Qed.

Lemma email_pattern_classes : classes_within (fun c => negb (is_space c)) email_pattern.
Proof.
  assert (Hn : forall c, not_space_at c = true -> negb (is_space c) = true).
  { intros c. unfold not_space_at. destruct (is_space c); [discriminate | reflexivity]. }
  assert (He : forall d c, is_space d = false -> Ascii.eqb d c = true -> negb (is_space c) = true).
  { intros d c Hd E. apply Ascii.eqb_eq in E. subst c. now rewrite Hd. }
  unfold email_pattern, Plus; cbn [classes_within].
  repeat split; try exact Hn; intros c; apply He; reflexivity.
Qed.

Lemma valid_no_space (e : string) : matches email_pattern e = true -> no_space e.
Proof.
  intros H. apply matches_lang in H.
  exact (lang_all_chars _ _ _ H email_pattern_classes).
Qed.

Lemma valid_not_empty (e : string) : matches email_pattern e = true -> e <> EmptyString.
Proof. intros H ->. discriminate H. Qed.

Lemma no_space_toLowerCase (s : string) : no_space s -> no_space (toLowerCase s).
Proof.
  unfold no_space. induction s as [|c s IH]; simpl; [trivial |].
  intros H. apply andb_prop in H as [Hc Hs].
  now rewrite is_space_lower_char, Hc, IH.
Qed.

Lemma trimStart_no_space (s : string) : no_space s -> trimStart s = s.
Proof.
  unfold no_space. destruct s as [|c s]; simpl; [trivial |].
  intros H. apply andb_prop in H as [Hc _].
  now destruct (is_space c).
Qed.

Lemma trimEnd_no_space (s : string) : no_space s -> trimEnd s = s.
Proof.
  unfold no_space. induction s as [|c s IH]; simpl; [trivial |].
  intros H. apply andb_prop in H as [Hc Hs]. rewrite (IH Hs).
  destruct s; [| reflexivity]. now destruct (is_space c).
Qed.

Lemma trim_no_space (s : string) : no_space s -> trim s = s.
Proof.
  intros H. unfold trim. rewrite (trimStart_no_space s H). now apply trimEnd_no_space.
Qed.

Lemma isValidEmail_string (e : string) (b : bool) :
  isValidEmail (VString e) = Ok b <-> matches email_pattern e = b.
Proof. unfold isValidEmail, test; simpl. split; [now intros [= ->] | now intros ->]. Qed.

End Normalization.

(** C10: an email string that passes validation contains no whitespace, so
    the key under which Subscribe stores it is the lowercased email: the
    trimming step changes nothing on an accepted input. *)
Theorem C10_trim_is_noop_on_accepted_email (e : string) :
  isValidEmail (VString e) = Ok true ->
  no_space e /\
  trim (toLowerCase e) = toLowerCase e /\
  normalize (VString e) = Ok (toLowerCase e).
Proof.
  intros H. apply isValidEmail_string in H.
  pose proof (valid_no_space e H) as Hs.
  pose proof (trim_no_space _ (no_space_toLowerCase e Hs)) as Ht.
  split; [exact Hs |]. split; [exact Ht |].
  simpl. now rewrite Ht.
Qed.

Lemma C10_witness :
  isValidEmail (VString "Jane.Doe@Example.COM") = Ok true /\
  no_space "Jane.Doe@Example.COM" /\
  trim (toLowerCase "Jane.Doe@Example.COM") = "jane.doe@example.com" /\
  normalize (VString "Jane.Doe@Example.COM") = Ok "jane.doe@example.com".
Proof.
  split; [reflexivity |].
  destruct (C10_trim_is_noop_on_accepted_email "Jane.Doe@Example.COM" eq_refl)
    as (H1 & H2 & H3).
  split; [exact H1 |].
  split; [rewrite H2; reflexivity | rewrite H3; reflexivity].
Defined.

(** * The namespace *)

Section Namespace.

Lemma get_stored key st text :
  st !! key = Some text -> KV.get key st = (Ok (Some text), st).
Proof. unfold KV.get. now intros ->. Qed.

Lemma get_accepted key st :
  KV.refused key = false -> KV.get key st = (Ok (st !! key), st).
Proof. unfold KV.get. intros ->. now destruct (st !! key). Qed.

Lemma get_refused key st :
  st !! key = None -> KV.refused key = true -> KV.get key st = (Throw StorageError, st).
Proof. unfold KV.get. now intros -> ->. Qed.

Lemma get_Ok key st data st' :
  KV.get key st = (Ok data, st') -> data = st !! key /\ st' = st.
Proof.
  unfold KV.get. destruct (st !! key); [now intros [= <- <-] |].
  destruct (KV.refused key); [discriminate | now intros [= <- <-]].
Qed.

Lemma get_store key st : (KV.get key st).2 = st.
Proof. unfold KV.get. destruct (st !! key); [| destruct (KV.refused key)]; reflexivity. Qed.

Lemma put_accepted key text st :
  KV.refused key = false -> KV.put key text st = (Ok tt, <[key := text]> st).
Proof. unfold KV.put. now intros ->. Qed.

Lemma put_refused key text st :
  KV.refused key = true -> KV.put key text st = (Throw StorageError, st).
Proof. unfold KV.put. now intros ->. Qed.

Lemma delete_stored key st text :
  st !! key = Some text -> KV.delete key st = (Ok tt, delete key st).
Proof. unfold KV.delete. now intros ->. Qed.

Lemma refused_false key : KV.refused key = false <-> (KV.utf8_length key <= 512)%nat.
Proof. unfold KV.refused. rewrite Nat.ltb_ge. reflexivity. Qed.

Lemma skipped_stored st key text :
  st !! key = Some text -> skipped st key <-> text = EmptyString.
Proof.
  intros Hl. unfold skipped. rewrite (get_stored _ _ _ Hl). split.
  - intros (data & [= <-] & Hp). simpl in Hp.
    destruct (String.eqb_spec text EmptyString); [assumption | discriminate].
  - intros ->. exists (Some EmptyString). split; reflexivity.
Qed.

Lemma skipped_present st key : skipped st key -> present (st !! key) = false.
Proof. intros (data & Hg & Hp). apply get_Ok in Hg as [<- _]. exact Hp. Qed.

(** The page holds keys of the store, each once and in order; it holds all
    of them when the store has no more than a page of keys. *)
Lemma scan_order_stored st key : key ∈ scan_order st -> is_Some (st !! key).
Proof.
  unfold scan_order, KV.keys. intros Hin. apply subseteq_take in Hin.
  rewrite merge_sort_Permutation in Hin.
  apply list_elem_of_fmap in Hin as ([k text] & -> & Hin).
  apply elem_of_map_to_list in Hin. now exists text.
Qed.





Lemma scan_order_whole st key :
  (size st <= KV.page_size)%nat -> is_Some (st !! key) -> key ∈ scan_order st.
Proof.
  unfold scan_order, KV.keys. intros Hsize [text Hl].
  rewrite take_ge.
  - rewrite merge_sort_Permutation. apply list_elem_of_fmap. exists (key, text).
    split; [reflexivity | now apply elem_of_map_to_list].
  - rewrite (Permutation_length (merge_sort_Permutation _ _)).
    now rewrite length_fmap, length_map_to_list.
Qed.

End Namespace.

(** * Subscribe *)

Section Subscribe.

#[local] Arguments KV.get : simpl never.
#[local] Arguments KV.put : simpl never.

Ltac run := unfold handleSubscribe, try_catch, bind, lift, ret.

Lemma stringify_record (token subscribed_at : string) :
  JSON_stringify (VObject [("token", VString token); ("subscribed_at", VString subscribed_at)])
  = Some (record_text token subscribed_at).
Proof. reflexivity. Qed.

Lemma record_text_not_empty (token subscribed_at : string) :
  String.eqb (record_text token subscribed_at) EmptyString = false.
Proof. reflexivity. Qed.

(** The body could not be read as JSON, or it is [null]: the exception is
    caught and answered 500. *)
Lemma subscribe_unreadable_body request rt st e :
  request_email request = Throw e ->
  exists r, handleSubscribe request rt st = (Ok r, st) /\
            json_reply r 500 "error" "Server error".
Proof.
  unfold request_email. intros H. eexists. split.
  - run. destruct (JSON_parse (body_text request)) as [parsed|e'].
    + rewrite H. reflexivity.
    + reflexivity.
  - split; reflexivity.
Qed.

Lemma subscribe_invalid request rt st email :
  request_email request = Ok email ->
  truthy email = false \/ isValidEmail email = Ok false ->
  exists r, handleSubscribe request rt st = (Ok r, st) /\
            json_reply r 400 "error" "Invalid email" /\
            headers r = ("Content-Type", "application/json") :: CORS_HEADERS.
Proof.
  unfold request_email. intros H Hbad. eexists. split.
  - run. destruct (JSON_parse (body_text request)) as [parsed|e']; [| discriminate].
    rewrite H.
    destruct (truthy email) eqn:Ht; simpl.
    + destruct Hbad as [|Hv]; [discriminate |]. rewrite Hv. reflexivity.
    + reflexivity.
  - repeat split; reflexivity.
Qed.

(** Where a string that passes validation takes Subscribe: to the lookup
    under the normalized email. *)
Lemma subscribe_lookup request rt st e :
  request_email request = Ok (VString e) ->
  matches email_pattern e = true ->
  handleSubscribe request rt st =
    let key := trim (toLowerCase e) in
    let server_error :=
      {| body := json_body (VObject [("error", VString "Server error")]);
         status := 500;
         headers := json_headers_cors |} in
    match KV.get key st with
    | (Ok existing, st') =>
        if present existing then
          (Ok {| body := json_body (VObject [("message", VString "Already subscribed")]);
                 status := 200;
                 headers := json_headers_cors |}, st')
        else
          match KV.put key (record_text (randomUUID rt) (toISOString rt)) st' with
          | (Ok _, st'') =>
              (Ok {| body := json_body (VObject [("message", VString "Subscribed successfully")]);
                     status := 200;
                     headers := json_headers_cors |}, st'')
          | (Throw _, st'') => (Ok server_error, st'')
          end
    | (Throw _, st') => (Ok server_error, st')
    end.
Proof.
  intros H Hv. unfold request_email in H.
  assert (Ht : truthy (VString e) = true).
  { simpl. destruct (String.eqb_spec e EmptyString) as [->|]; [discriminate Hv | reflexivity]. }
  run. destruct (JSON_parse (body_text request)) as [parsed|e']; [| discriminate].
  rewrite H, Ht. simpl. unfold isValidEmail, test. simpl. rewrite Hv. simpl.
  destruct (KV.get (trim (toLowerCase e)) st) as [[existing|x] st']; [| reflexivity].
  destruct (present existing); [reflexivity |].
  unfold generateToken, KV.put.
  destruct (KV.refused (trim (toLowerCase e))); reflexivity.
Qed.

(** A string that passes validation and whose key has a record, or is one
    that the store accepts: the record is looked up under the normalized
    email, and written only when there is none. *)
Lemma subscribe_valid request rt st e :
  request_email request = Ok (VString e) ->
  matches email_pattern e = true ->
  let key := trim (toLowerCase e) in
  present (st !! key) = true \/ KV.refused key = false ->
  exists r,
    handleSubscribe request rt st =
      (Ok r, if present (st !! key) then st
             else <[key := record_text (randomUUID rt) (toISOString rt)]> st) /\
    json_reply r 200 "message"
      (if present (st !! key) then "Already subscribed" else "Subscribed successfully") /\
    headers r = ("Content-Type", "application/json") :: CORS_HEADERS.
Proof.
  intros H Hv key Hkey. rewrite (subscribe_lookup request rt st e H Hv). cbv zeta. fold key.
  destruct (present (st !! key)) eqn:Hp.
  - destruct (st !! key) as [text|] eqn:Hl; [| discriminate].
    rewrite (get_stored _ _ _ Hl), Hp. eexists. split; [reflexivity |].
    repeat split; reflexivity.
  - destruct Hkey as [|Hacc]; [discriminate |].
    rewrite (get_accepted _ _ Hacc), Hp, (put_accepted _ _ _ Hacc).
    eexists. split; [reflexivity |]. repeat split; reflexivity.
Qed.

(** A string that passes validation and whose key the store refuses: the
    refusal is caught and answered 500. *)
Lemma subscribe_refused request rt st e :
  request_email request = Ok (VString e) ->
  matches email_pattern e = true ->
  present (st !! trim (toLowerCase e)) = false ->
  KV.refused (trim (toLowerCase e)) = true ->
  exists r, handleSubscribe request rt st = (Ok r, st) /\
            json_reply r 500 "error" "Server error".
Proof.
  intros H Hv Hp Href. rewrite (subscribe_lookup request rt st e H Hv). cbv zeta.
  destruct (st !! trim (toLowerCase e)) as [text|] eqn:Hl.
  - rewrite (get_stored _ _ _ Hl), Hp, (put_refused _ _ _ Href).
    eexists. split; [reflexivity |]. split; reflexivity.
  - rewrite (get_refused _ _ Hl Href).
    eexists. split; [reflexivity |]. split; reflexivity.
Qed.

Lemma present_insert_record (st : store) (key token subscribed_at : string) :
  present (<[key := record_text token subscribed_at]> st !! key) = true.
Proof. rewrite lookup_insert_eq. reflexivity. Qed.

(** After Subscribe has answered for a valid email whose key the store
    accepts there is a record under its key. *)
Lemma subscribe_valid_then_present request rt st e :
  request_email request = Ok (VString e) ->
  matches email_pattern e = true ->
  KV.refused (trim (toLowerCase e)) = false ->
  present ((handleSubscribe request rt st).2 !! trim (toLowerCase e)) = true.
Proof.
  intros H Hv Hacc.
  destruct (subscribe_valid request rt st e H Hv (or_intror Hacc)) as (r & -> & _).
  simpl. destruct (present (st !! trim (toLowerCase e))) eqn:Hp; [exact Hp |].
  apply present_insert_record.
Qed.

Lemma filter_key_unique (l : list (string * string)) (key text : string) :
  NoDup l.*1 -> (key, text) ∈ l ->
  length (List.filter (fun kv => String.eqb (fst kv) key) l) = 1%nat.
Proof.
  induction l as [|[k v] l IH]; intros Hnd Hin.
  - inversion Hin.
  - rewrite fmap_cons in Hnd. apply NoDup_cons in Hnd as [Hk Hnd]. simpl in Hk |- *.
    apply elem_of_cons in Hin as [[= <- <-]|Hin].
    + rewrite String.eqb_refl. simpl. f_equal.
      assert (Hnone : forall l', key ∉ l'.*1 ->
                List.filter (fun kv : string * string => String.eqb (fst kv) key) l' = []).
      { clear. induction l' as [|[k' v'] l' IH']; intros Hn; [reflexivity |].
        rewrite fmap_cons in Hn. apply not_elem_of_cons in Hn as [Hne Hn]. simpl in *.
        destruct (String.eqb_spec k' key); [congruence | now apply IH']. }
      now rewrite Hnone.
    + destruct (String.eqb_spec k key) as [->|Hne].
      * exfalso. apply Hk. apply list_elem_of_fmap. now exists (key, text).
      * now apply IH.
Qed.

Lemma records_under_present (st : store) (key : string) :
  present (st !! key) = true -> records_under key st = 1%nat.
Proof.
  intros H. destruct (st !! key) as [text|] eqn:Hl; [| discriminate].
  unfold records_under. apply (filter_key_unique _ key text).
  - apply NoDup_fst_map_to_list.
  - now apply elem_of_map_to_list.
Qed.

Lemma lower_char_idempotent (c : ascii) : lower_char (lower_char c) = lower_char c.
Proof. destruct c as [[] [] [] [] [] [] [] []]; reflexivity. Qed.

Lemma same_letter_lower (a b : ascii) : same_letter a b -> lower_char a = lower_char b.
Proof.
  intros [->|[[_ ->]|[_ ->]]]; [reflexivity | |]; now rewrite lower_char_idempotent.
Qed.

Lemma same_up_to_case_lower (s t : string) :
  same_up_to_case s t -> toLowerCase s = toLowerCase t.
Proof.
  induction 1 as [|a b s t Hab Hst IH]; simpl; [reflexivity |].
  now rewrite (same_letter_lower a b Hab), IH.
Qed.

Lemma space_and_no_space (s : string) :
  all_chars is_space s = true -> no_space s -> s = EmptyString.
Proof.
  unfold no_space. destruct s as [|c s]; [reflexivity |]. simpl.
  destruct (is_space c); simpl; discriminate.
Qed.

Lemma no_space_append (s t : string) : no_space (s +:+ t) -> no_space s /\ no_space t.
Proof. unfold no_space. rewrite all_chars_append. apply andb_prop. Qed.

Lemma padding_of_no_space (p c q : string) :
  no_space (p +:+ c +:+ q) ->
  all_chars is_space p = true -> all_chars is_space q = true ->
  p +:+ c +:+ q = c.
Proof.
  intros H Hp Hq.
  apply no_space_append in H as [H1 H2]. apply no_space_append in H2 as [_ H3].
  rewrite (space_and_no_space p Hp H1), (space_and_no_space q Hq H3). simpl.
  apply append_empty_r.
Qed.

Lemma same_key (e1 e2 : string) :
  matches email_pattern e1 = true -> matches email_pattern e2 = true ->
  differ_only_in_case_or_padding e1 e2 ->
  trim (toLowerCase e1) = trim (toLowerCase e2).
Proof.
  intros H1 H2 (p1 & c1 & q1 & p2 & c2 & q2 & E1 & E2 & Hp1 & Hq1 & Hp2 & Hq2 & Hc).
  pose proof (valid_no_space e1 H1) as N1. pose proof (valid_no_space e2 H2) as N2.
  rewrite (trim_no_space _ (no_space_toLowerCase e1 N1)).
  rewrite (trim_no_space _ (no_space_toLowerCase e2 N2)).
  rewrite E1 in N1 |- *. rewrite E2 in N2 |- *.
  rewrite (padding_of_no_space _ _ _ N1 Hp1 Hq1), (padding_of_no_space _ _ _ N2 Hp2 Hq2).
  now apply same_up_to_case_lower.
Qed.

(** Two valid emails with the same key, which the store accepts, one
    subscribed after the other. *)
Lemma subscribe_again request1 request2 rt1 rt2 st e1 e2 :
  request_email request1 = Ok (VString e1) ->
  request_email request2 = Ok (VString e2) ->
  matches email_pattern e1 = true -> matches email_pattern e2 = true ->
  trim (toLowerCase e1) = trim (toLowerCase e2) ->
  KV.refused (trim (toLowerCase e1)) = false ->
  let st1 := (handleSubscribe request1 rt1 st).2 in
  exists r2,
    handleSubscribe request2 rt2 st1 = (Ok r2, st1) /\
    json_reply r2 200 "message" "Already subscribed" /\
    records_under (trim (toLowerCase e1)) st1 = 1%nat.
Proof.
  intros R1 R2 V1 V2 K Hacc st1.
  pose proof (subscribe_valid_then_present request1 rt1 st e1 R1 V1 Hacc) as Hp.
  fold st1 in Hp.
  assert (Hkey : present (st1 !! trim (toLowerCase e2)) = true \/
                 KV.refused (trim (toLowerCase e2)) = false) by (left; now rewrite <- K).
  destruct (subscribe_valid request2 rt2 st1 e2 R2 V2 Hkey) as (r2 & Hrun & Hrep & _).
  rewrite <- K in Hrun, Hrep. rewrite Hp in Hrun, Hrep.
  exists r2. split; [exact Hrun |]. split; [exact Hrep |].
  now apply records_under_present.
Qed.

End Subscribe.

(** C5, as the worker has it: when the body of the request is JSON other
    than null and its email is missing (or otherwise falsy) or does not
    match the pattern, Subscribe answers 400 "Invalid email"; when the body
    is not JSON or is the JSON null, so that there is no email to read, it
    answers 500 "Server error".  In both cases the store is left as it
    was. *)
Theorem C5_invalid_email_is_rejected_without_write
    (request : Request) (rt : Runtime) (st : store) :
  (forall email,
     request_email request = Ok email ->
     truthy email = false \/ isValidEmail email = Ok false ->
     exists r,
       handleSubscribe request rt st = (Ok r, st) /\
       status r = 400%Z /\
       body r = JSON_stringify (VObject [("error", VString "Invalid email")])) /\
  (JSON_parse (body_text request) = Throw SyntaxError \/
   JSON_parse (body_text request) = Ok VNull ->
   exists r,
     handleSubscribe request rt st = (Ok r, st) /\
     status r = 500%Z /\
     body r = JSON_stringify (VObject [("error", VString "Server error")])).
Proof.
  split.
  - intros email H Hbad.
    destruct (subscribe_invalid request rt st email H Hbad) as (r & Hrun & [Hs Hb] & _).
    exists r. auto.
  - intros H.
    assert (Hreq : exists x, request_email request = Throw x).
    { unfold request_email. destruct H as [-> | ->]; simpl; eauto. }
    destruct Hreq as [x Hreq].
    destruct (subscribe_unreadable_body request rt st x Hreq) as (r & Hrun & [Hs Hb]).
    exists r. auto.
Qed.

Lemma C5_witness :
  exists r,
    handleSubscribe (subscribe_request "not-an-email") (runtime "t1" "2024-05-01T10:00:00.000Z")
      {[ "a@b.co" := "x" ]}
    = (Ok r, {[ "a@b.co" := "x" ]}) /\
    status r = 400%Z /\
    body r = JSON_stringify (VObject [("error", VString "Invalid email")]).
Proof.
  destruct (C5_invalid_email_is_rejected_without_write
              (subscribe_request "not-an-email") (runtime "t1" "2024-05-01T10:00:00.000Z")
              {[ "a@b.co" := "x" ]}) as [H _].
  apply (H (VString "not-an-email")).
  - reflexivity.
  - right. reflexivity.
Defined.

(** The claim C5 fails for a request that carries no email because its body
    is the JSON null, or is empty: the answer is 500 "Server error", not
    400. *)
Lemma C5_counterexample :
  let null_body := {| method := "POST"; pathname := "/subscribe"; searchParams := [];
                      body_text := "null" |} in
  let no_body := {| method := "POST"; pathname := "/subscribe"; searchParams := [];
                    body_text := EmptyString |} in
  let rt := runtime "tok-1" "2024-05-01T10:00:00.000Z" in
  JSON_parse (body_text null_body) = Ok VNull /\
  JSON_parse (body_text no_body) = Throw SyntaxError /\
  exists r1 r2,
    handleSubscribe null_body rt ∅ = (Ok r1, ∅) /\
    json_reply r1 500 "error" "Server error" /\ status r1 <> 400%Z /\
    handleSubscribe no_body rt ∅ = (Ok r2, ∅) /\
    json_reply r2 500 "error" "Server error" /\ status r2 <> 400%Z.
Proof.
  intros null_body no_body rt. split; [reflexivity |]. split; [reflexivity |].
  do 2 eexists.
  split; [reflexivity |]. split; [split; reflexivity |]. split; [discriminate |].
  split; [reflexivity |]. split; [split; reflexivity | discriminate].
Qed.




(** C2, for inputs that pass validation and whose key the store accepts:
    two emails that both pass validation and differ only in letter case or
    in surrounding whitespace have the same key; when that key is at most
    512 bytes long, after the first is subscribed the second is answered
    "Already subscribed", nothing is written, and the store holds one
    record under that key.  The emails are strings of the alphabet
    U+0000..U+00FF, with its letter cases. *)
Theorem C2_case_variants_share_one_record
    (request1 request2 : Request) (rt1 rt2 : Runtime) (st : store) (e1 e2 : string) :
  request_email request1 = Ok (VString e1) ->
  request_email request2 = Ok (VString e2) ->
  isValidEmail (VString e1) = Ok true ->
  isValidEmail (VString e2) = Ok true ->
  differ_only_in_case_or_padding e1 e2 ->
  (KV.utf8_length (trim (toLowerCase e1)) <= 512)%nat ->
  let st1 := (handleSubscribe request1 rt1 st).2 in
  normalize (VString e1) = normalize (VString e2) /\
  (exists r2,
     handleSubscribe request2 rt2 st1 = (Ok r2, st1) /\
     json_reply r2 200 "message" "Already subscribed" /\
     records_under (trim (toLowerCase e1)) st1 = 1%nat).
Proof.
  intros R1 R2 V1 V2 D Hlen st1.
  apply isValidEmail_string in V1. apply isValidEmail_string in V2.
  apply refused_false in Hlen.
  pose proof (same_key e1 e2 V1 V2 D) as K.
  split; [simpl; now rewrite K |].
  now apply (subscribe_again request1 request2 rt1 rt2 st e1 e2).
Qed.

Lemma C2_witness :
  let st1 := (handleSubscribe (subscribe_request "Ann@Example.org")
                (runtime "tok-1" "2024-05-01T10:00:00.000Z") ∅).2 in
  normalize (VString "Ann@Example.org") = normalize (VString "ann@EXAMPLE.org") /\
  (exists r2,
     handleSubscribe (subscribe_request "ann@EXAMPLE.org")
       (runtime "tok-2" "2024-06-01T10:00:00.000Z") st1 = (Ok r2, st1) /\
     json_reply r2 200 "message" "Already subscribed" /\
     records_under (trim (toLowerCase "Ann@Example.org")) st1 = 1%nat).
Proof.
  apply (C2_case_variants_share_one_record
           (subscribe_request "Ann@Example.org") (subscribe_request "ann@EXAMPLE.org")
           _ _ ∅ "Ann@Example.org" "ann@EXAMPLE.org"); try reflexivity.
  - exists EmptyString, "Ann@Example.org", EmptyString,
      EmptyString, "ann@EXAMPLE.org", EmptyString.
    repeat (split; [reflexivity |]).
    repeat (constructor;
            [first [left; reflexivity
                   | right; left; split; reflexivity
                   | right; right; split; reflexivity] |]).
    constructor.
  - vm_compute. lia.
Defined.

(** The claim C2 fails on its own example: the two inputs differ only in
    letter case and surrounding whitespace, and after the second is
    subscribed the first is answered 400 "Invalid email", not "Already
    subscribed". *)
Lemma C2_counterexample :
  let st1 := (handleSubscribe (subscribe_request "a@b.com")
                (runtime "tok-1" "2024-05-01T10:00:00.000Z") ∅).2 in
  differ_only_in_case_or_padding " A@B.com " "a@b.com" /\
  st1 = {[ "a@b.com" := record_text "tok-1" "2024-05-01T10:00:00.000Z" ]} /\
  exists r,
    handleSubscribe (subscribe_request " A@B.com ")
      (runtime "tok-2" "2024-06-01T10:00:00.000Z") st1 = (Ok r, st1) /\
    json_reply r 400 "error" "Invalid email" /\
    ~ json_reply r 200 "message" "Already subscribed".
Proof.
  intros st1. split; [| split; [reflexivity |]].
  - exists " ", "A@B.com", " ", EmptyString, "a@b.com", EmptyString.
    repeat (split; [reflexivity |]).
    repeat (constructor;
            [first [left; reflexivity
                   | right; left; split; reflexivity
                   | right; right; split; reflexivity] |]).
    constructor.
  - eexists. split; [reflexivity |]. split; [split; reflexivity |].
    intros [Hs _]. discriminate Hs.
Qed.

(** * The scans of Unsubscribe and ListSubscribers *)

Section Scans.

#[local] Arguments KV.get : simpl never.
#[local] Arguments KV.delete : simpl never.

Lemma present_Some (text : string) :
  present (Some text) = true <-> text <> EmptyString.
Proof.
  unfold present. destruct (String.eqb_spec text EmptyString); simpl; split; intros; congruence.
Qed.

Lemma strict_equals_string_true (v : value) (s : string) :
  strict_equals_string v s = true <-> v = VString s.
Proof.
  destruct v; simpl; try (split; [discriminate | intros [=]]).
  rewrite String.eqb_eq. split; [now intros -> | now intros [= ->]].
Qed.

Lemma get_prop_throws_alike (v : value) (n1 n2 : string) (e : exn) :
  get_prop v n1 = Throw e -> get_prop v n2 = Throw e.
Proof. destruct v; simpl; intros H; try discriminate; exact H. Qed.


(** The first step of the two scans at a key with a value that is not
    empty. *)
Lemma unsubscribe_scan_step token key rest st text :
  st !! key = Some text -> text <> EmptyString ->
  unsubscribe_scan token (key :: rest) st =
    match JSON_parse text with
    | Ok parsed =>
        match get_prop parsed "token" with
        | Ok t => if strict_equals_string t token then (Ok true, delete key st)
                  else unsubscribe_scan token rest st
        | Throw e => (Throw e, st)
        end
    | Throw e => (Throw e, st)
    end.
Proof.
  intros Hl Hne. simpl. unfold bind at 1. rewrite (get_stored _ _ _ Hl).
  apply present_Some in Hne. rewrite Hne. unfold bind, lift, ret.
  destruct (JSON_parse text) as [parsed|e]; [| reflexivity].
  destruct (get_prop parsed "token") as [t|e]; [| reflexivity].
  destruct (strict_equals_string t token); [| reflexivity].
  now rewrite (delete_stored _ _ _ Hl).
Qed.

Lemma list_scan_step key rest st text :
  st !! key = Some text -> text <> EmptyString ->
  list_scan (key :: rest) st =
    match JSON_parse text with
    | Ok parsed =>
        match get_prop parsed "token", get_prop parsed "subscribed_at" with
        | Ok token, Ok subscribed_at =>
            match list_scan rest st with
            | (Ok more, st') => (Ok (subscriber key token subscribed_at :: more), st')
            | (Throw e, st') => (Throw e, st')
            end
        | Throw e, _ | _, Throw e => (Throw e, st)
        end
    | Throw e => (Throw e, st)
    end.
Proof.
  intros Hl Hne. simpl. unfold bind at 1. rewrite (get_stored _ _ _ Hl).
  apply present_Some in Hne. rewrite Hne. unfold bind, lift, ret.
  destruct (JSON_parse text) as [parsed|e]; [| reflexivity].
  destruct (get_prop parsed "token") as [t|e]; [| reflexivity].
  destruct (get_prop parsed "subscribed_at") as [a|e]; [| reflexivity].
  destruct (list_scan rest st) as [[more|e] st']; reflexivity.
Qed.

Lemma unsubscribe_scan_skip token key rest st :
  skipped st key -> unsubscribe_scan token (key :: rest) st = unsubscribe_scan token rest st.
Proof.
  intros (data & Hg & Hp). simpl. unfold bind at 1. rewrite Hg.
  destruct data as [text|]; [now rewrite Hp | reflexivity].
Qed.

Lemma unsubscribe_scan_pass token key rest st :
  passed_over token st key ->
  unsubscribe_scan token (key :: rest) st = unsubscribe_scan token rest st.
Proof.
  intros [H|(t & a & (text & parsed & Hl & Hne & Hp & Ht & _) & Hdiff)].
  - now apply unsubscribe_scan_skip.
  - rewrite (unsubscribe_scan_step _ _ _ _ _ Hl Hne), Hp, Ht.
    destruct (strict_equals_string t token) eqn:E; [| reflexivity].
    apply strict_equals_string_true in E. contradiction.
Qed.

Lemma unsubscribe_scan_prefix token pre rest st :
  Forall (passed_over token st) pre ->
  unsubscribe_scan token (pre ++ rest)%list st = unsubscribe_scan token rest st.
Proof.
  induction 1 as [|key pre Hk _ IH]; [reflexivity |].
  rewrite <- IH. now apply unsubscribe_scan_pass.
Qed.

Lemma unsubscribe_scan_match token key rest st :
  token_matches st key token ->
  unsubscribe_scan token (key :: rest) st = (Ok true, delete key st).
Proof.
  intros (a & text & parsed & Hl & Hne & Hp & Ht & _).
  rewrite (unsubscribe_scan_step _ _ _ _ _ Hl Hne), Hp, Ht. simpl.
  now rewrite String.eqb_refl.
Qed.


(** What a scan for [token] over [keys] can do: pass over every key, stop
    at the first key that matches and delete it, or stop with an exception
    at a key before any match.  In the last case nothing is deleted. *)
Lemma unsubscribe_scan_cases token keys st :
  (unsubscribe_scan token keys st = (Ok false, st) /\
   Forall (passed_over token st) keys) \/
  (exists pre key post,
     keys = (pre ++ key :: post)%list /\ Forall (passed_over token st) pre /\
     token_matches st key token /\
     unsubscribe_scan token keys st = (Ok true, delete key st)) \/
  (exists e, unsubscribe_scan token keys st = (Throw e, st)).
Proof.
  induction keys as [|key keys IH].
  - left. split; [reflexivity | constructor].
  - assert (Hpass : passed_over token st key ->
      (unsubscribe_scan token (key :: keys) st = (Ok false, st) /\
       Forall (passed_over token st) (key :: keys)) \/
      (exists pre k post,
         key :: keys = (pre ++ k :: post)%list /\ Forall (passed_over token st) pre /\
         token_matches st k token /\
         unsubscribe_scan token (key :: keys) st = (Ok true, delete k st)) \/
      (exists e, unsubscribe_scan token (key :: keys) st = (Throw e, st))).
    { intros Hk. rewrite (unsubscribe_scan_pass _ _ _ _ Hk).
      destruct IH as [[Hr Hall]|[(pre & k & post & -> & Hpre & Hm & Hr)|[e Hr]]].
      - left. split; [exact Hr | now constructor].
      - right; left. exists (key :: pre), k, post.
        split; [reflexivity |]. split; [now constructor |]. now split.
      - right; right. now exists e. }
    destruct (st !! key) as [text|] eqn:Hl.
    2:{ destruct (KV.refused key) eqn:Href.
        - right; right. exists StorageError. simpl. unfold bind at 1.
          now rewrite (get_refused _ _ Hl Href).
        - apply Hpass. left. exists None.
          split; [now rewrite (get_accepted _ _ Href), Hl | reflexivity]. }
    destruct (String.eqb_spec text EmptyString) as [->|Hne].
    { apply Hpass. left. now apply (skipped_stored st key EmptyString Hl). }
    destruct (JSON_parse text) as [parsed|e] eqn:Hp.
    2:{ right; right. exists e. now rewrite (unsubscribe_scan_step _ _ _ _ _ Hl Hne), Hp. }
    destruct (get_prop parsed "token") as [t|e] eqn:Ht.
    2:{ right; right. exists e. now rewrite (unsubscribe_scan_step _ _ _ _ _ Hl Hne), Hp, Ht. }
    destruct (get_prop parsed "subscribed_at") as [a|e] eqn:Ha.
    2:{ apply (get_prop_throws_alike _ _ "token") in Ha. congruence. }
    assert (Hrec : record_is st key t a) by (exists text, parsed; auto).
    destruct (strict_equals_string t token) eqn:E.
    + apply strict_equals_string_true in E. subst t.
      right; left. exists [], key, keys.
      split; [reflexivity |]. split; [constructor |].
      assert (Hm : token_matches st key token) by now exists a.
      split; [exact Hm | now apply unsubscribe_scan_match].
    + apply Hpass. right. exists t, a. split; [exact Hrec |].
      intros ->. simpl in E. now rewrite String.eqb_refl in E.
Qed.


Lemma list_scan_skip key rest st :
  skipped st key -> list_scan (key :: rest) st = list_scan rest st.
Proof.
  intros (data & Hg & Hp). simpl. unfold bind at 1. rewrite Hg.
  destruct data as [text|]; [now rewrite Hp | reflexivity].
Qed.


Lemma list_scan_record key rest st token subscribed_at :
  record_is st key token subscribed_at ->
  list_scan (key :: rest) st =
    match list_scan rest st with
    | (Ok more, st') => (Ok (subscriber key token subscribed_at :: more), st')
    | (Throw e, st') => (Throw e, st')
    end.
Proof.
  intros (text & parsed & Hl & Hne & Hp & Ht & Ha).
  now rewrite (list_scan_step _ _ _ _ Hl Hne), Hp, Ht, Ha.
Qed.

Lemma list_scan_store keys st : (list_scan keys st).2 = st.
Proof.
  induction keys as [|key keys IH]; [reflexivity |].
  simpl. unfold bind at 1.
  destruct (KV.get key st) as [[data|e] st0] eqn:Hg.
  2:{ pose proof (get_store key st) as Hs. now rewrite Hg in Hs. }
  apply get_Ok in Hg as [-> ->].
  destruct (st !! key) as [text|]; [| exact IH].
  destruct (present (Some text)); [| exact IH].
  unfold bind, lift, ret.
  destruct (JSON_parse text) as [parsed|]; [| reflexivity].
  destruct (get_prop parsed "token"); [| reflexivity].
  destruct (get_prop parsed "subscribed_at"); [| reflexivity].
  destruct (list_scan keys st) as [[more|e] st'] eqn:E; simpl in IH |- *; exact IH.
Qed.


(** The entries of a listing are those of the records of the keys that are
    not skipped, in the order of the keys. *)
Lemma list_scan_sound keys st subscribers st' :
  list_scan keys st = (Ok subscribers, st') ->
  Forall2 (fun key entry => exists token subscribed_at,
             record_is st key token subscribed_at /\
             entry = subscriber key token subscribed_at)
          (List.filter (fun key => present (st !! key)) keys) subscribers.
Proof.
  revert subscribers. induction keys as [|key keys IH]; intros subscribers H.
  - injection H as <- _. constructor.
  - simpl in H. unfold bind at 1 in H.
    destruct (KV.get key st) as [[data|e] st0] eqn:Hg; [| discriminate].
    apply get_Ok in Hg as [-> ->]. simpl.
    destruct (st !! key) as [text|] eqn:Hl; [| auto].
    destruct (present (Some text)) eqn:Hpr; [| auto].
    apply present_Some in Hpr.
    unfold bind, lift, ret in H.
    destruct (JSON_parse text) as [parsed|] eqn:Hp; [| discriminate].
    destruct (get_prop parsed "token") as [t|] eqn:Ht; [| discriminate].
    destruct (get_prop parsed "subscribed_at") as [a|] eqn:Ha; [| discriminate].
    destruct (list_scan keys st) as [[more|e] st''] eqn:E; [| discriminate].
    injection H as <- <-. constructor.
    + exists t, a. split; [now exists text, parsed | reflexivity].
    + now apply IH.
Qed.

(** When no key stops it, the listing returns. *)
Lemma list_scan_complete keys st :
  Forall (listable st) keys -> exists subscribers, list_scan keys st = (Ok subscribers, st).
Proof.
  induction 1 as [|key keys Hk _ (more & Hrun)].
  - exists []. reflexivity.
  - destruct Hk as [Hs|(t & a & Hrec)].
    + exists more. now rewrite (list_scan_skip _ _ _ Hs).
    + exists (subscriber key t a :: more).
      now rewrite (list_scan_record _ _ _ _ _ Hrec), Hrun.
Qed.

End Scans.

(** * JSON text: what the parser returns *)

Section JSON.

Lemma parse_value_not_undefined n s v rest :
  parse_value n s = Done v rest -> v <> VUndefined.
Proof.
  destruct n as [|n]; simpl; [discriminate |].
  intros H.
  repeat match type of H with
         | context [match ?x with _ => _ end] => destruct x
         | context [if ?x then _ else _] => destruct x
         end;
  try discriminate; injection H as <- _; discriminate.
Qed.

Lemma JSON_parse_not_undefined text : JSON_parse text <> Ok VUndefined.
Proof.
  unfold JSON_parse. destruct (parse_value (parse_fuel text) text) as [v rest| | |] eqn:E;
    try discriminate.
  destruct (skip_ws rest); [| discriminate].
  intros [= ->]. now apply parse_value_not_undefined in E.
Qed.

Lemma parse_chars_quote_char c r rest :
  parse_chars (quote_chars (String c r) +:+ rest)
  = push c (parse_chars (quote_chars r +:+ rest)).
Proof. destruct c as [[] [] [] [] [] [] [] []]; reflexivity. Qed.

(** Reading back a quoted string gives the string. *)
Lemma parse_chars_quote t rest :
  parse_chars (quote_chars t +:+ String dquote rest) = Done t rest.
Proof.
  induction t as [|c t IH].
  - reflexivity.
  - rewrite parse_chars_quote_char, IH. reflexivity.
Qed.

Lemma record_text_shape token subscribed_at :
  record_text token subscribed_at =
  String "{" (String dquote ("token" +:+ String dquote (String ":" (String dquote
    (quote_chars token +:+ String dquote
      (String "," (String dquote ("subscribed_at" +:+ String dquote (String ":"
        (String dquote (quote_chars subscribed_at +:+ String dquote "}"))))))))))).
Proof.
  unfold record_text, quote. simpl.
  rewrite !append_assoc. simpl. rewrite !append_assoc. reflexivity.
Qed.

Lemma parse_fuel_cons c s : exists m, parse_fuel (String c s) = S (S (S (S m))).
Proof. exists (2 * String.length s)%nat. unfold parse_fuel. simpl. lia. Qed.

Lemma parse_value_string n x v rest :
  parse_chars x = Done v rest ->
  parse_value (S n) (String dquote x) = Done (VString v) rest.
Proof. intros H. simpl. now rewrite H. Qed.

Lemma parse_members_last n k x y v rest :
  parse_chars x = Done k (String ":" y) ->
  parse_value n y = Done v (String "}" rest) ->
  parse_members (S n) (String dquote x) = Done [(k, v)] rest.
Proof. intros H1 H2. simpl. rewrite H1. simpl. now rewrite H2. Qed.

Lemma parse_members_more n k x y v z ms rest :
  parse_chars x = Done k (String ":" y) ->
  parse_value n y = Done v (String "," z) ->
  parse_members n z = Done ms rest ->
  parse_members (S n) (String dquote x) = Done ((k, v) :: ms) rest.
Proof. intros H1 H2 H3. simpl. rewrite H1. simpl. rewrite H2. simpl. now rewrite H3. Qed.

Lemma parse_value_object n x ms rest :
  parse_members n (String dquote x) = Done ms rest ->
  parse_value (S n) (String "{" (String dquote x)) = Done (make_object ms) rest.
Proof. intros H. simpl. now rewrite H. Qed.

(** Reading back the text of a record gives its two fields. *)
Lemma JSON_parse_record token subscribed_at :
  JSON_parse (record_text token subscribed_at)
  = Ok (VObject [("token", VString token); ("subscribed_at", VString subscribed_at)]).
Proof.
  unfold JSON_parse. rewrite record_text_shape.
  match goal with |- context [parse_fuel ?t] =>
    assert (Hm : exists m, parse_fuel t = S (S (S (S m)))) by apply parse_fuel_cons
  end.
  destruct Hm as [m ->].
  erewrite (parse_value_object (S (S (S m))) _
              [("token", VString token); ("subscribed_at", VString subscribed_at)]
              EmptyString).
  - reflexivity.
  - eapply parse_members_more.
    + apply (parse_chars_quote "token").
    + apply parse_value_string, parse_chars_quote.
    + eapply parse_members_last.
      * apply (parse_chars_quote "subscribed_at").
      * apply parse_value_string, parse_chars_quote.
Qed.

End JSON.

(** * JSON text: the fuel of the parser *)

Section ParserFuel.

Lemma skip_ws_length s : (String.length (skip_ws s) <= String.length s)%nat.
Proof. induction s as [|c s IH]; simpl; [lia |]. destruct (is_ws c); simpl; lia. Qed.

Lemma starts_with_length c s r :
  starts_with c s = Some r -> String.length s = S (String.length r).
Proof.
  destruct s as [|d s]; simpl; [discriminate |].
  destruct (d =? c)%char; [now intros [= ->] | discriminate].
Qed.

Lemma push_Done c x k r :
  push c x = Done k r -> exists k', x = Done k' r.
Proof. destruct x as [k' r'| | |]; simpl; [intros [= _ ->]; eauto | | |]; discriminate. Qed.

Lemma parse_chars_length s k r :
  parse_chars s = Done k r -> (String.length r < String.length s)%nat.
Proof.
  remember (String.length s) as n eqn:Hn. revert s k r Hn.
  induction n as [n IH] using lt_wf_ind. intros s k r Hn H.
  destruct s as [|c s]; [discriminate |]. simpl in Hn, H.
  destruct (c =? dquote)%char; [injection H as _ <-; lia |].
  destruct (c =? backslash)%char.
  - destruct s as [|e s]; [discriminate |].
    destruct (e =? "u")%char.
    + destruct s as [|h1 [|h2 [|h3 [|h4 s]]]]; try discriminate.
      destruct (hex4 h1 h2 h3 h4) as [m|]; [| discriminate].
      destruct (m <? 256)%N; [| discriminate].
      apply push_Done in H as [k' H].
      apply (IH (String.length s)) in H; simpl in *; lia.
    + destruct (unescape e); [| discriminate].
      apply push_Done in H as [k' H].
      apply (IH (String.length s)) in H; simpl in *; lia.
  - destruct (code c <? 32)%N; [discriminate |].
    apply push_Done in H as [k' H].
    apply (IH (String.length s)) in H; simpl in *; lia.
Qed.

Lemma span_digits_length s d r :
  span_digits s = (d, r) -> (String.length r <= String.length s)%nat.
Proof.
  revert d r. induction s as [|c s IH]; simpl; intros d r H.
  - injection H as _ <-. simpl. lia.
  - destruct (is_digit c).
    + destruct (span_digits s) as [d' r'] eqn:E. injection H as _ <-.
      specialize (IH _ _ eq_refl). lia.
    + injection H as _ <-. simpl. lia.
Qed.

Lemma parse_number_length s lexeme r :
  parse_number s = Some (lexeme, r) -> (String.length r < String.length s)%nat.
Proof.
  unfold parse_number. intros H.
  assert (Hint : forall x i y, parse_int x = Some (i, y) ->
                   (String.length y < String.length x)%nat).
  { intros [|c x] i y; simpl; [discriminate |].
    destruct (c =? "0")%char; [intros [= _ <-]; lia |].
    destruct (is_digit c); [| discriminate].
    destruct (span_digits x) as [d r'] eqn:E. intros [= _ <-].
    apply span_digits_length in E. lia. }
  assert (Hfrac : forall x f y, parse_frac x = Some (f, y) ->
                    (String.length y <= String.length x)%nat).
  { intros x f y. unfold parse_frac.
    destruct (starts_with "." x) as [x'|] eqn:E; [| intros [= _ <-]; lia].
    apply starts_with_length in E.
    destruct (span_digits x') as [[|a d] r'] eqn:E'; [discriminate |].
    intros [= _ <-]. apply span_digits_length in E'. lia. }
  assert (Hsign : forall x sg y, parse_sign x = (sg, y) ->
                    (String.length y <= String.length x)%nat).
  { intros x sg y. unfold parse_sign.
    destruct (starts_with "+" x) as [x'|] eqn:E.
    - apply starts_with_length in E. intros [= _ <-]. lia.
    - destruct (starts_with "-" x) as [x'|] eqn:E'.
      + apply starts_with_length in E'. intros [= _ <-]. lia.
      + intros [= _ <-]. lia. }
  assert (Hexp : forall x e y, parse_exp x = Some (e, y) ->
                   (String.length y <= String.length x)%nat).
  { intros [|c x] e y; simpl; [intros [= _ <-]; simpl; lia |].
    destruct ((c =? "e")%char || (c =? "E")%char); [| intros [= _ <-]; simpl; lia].
    destruct (parse_sign x) as [sg x1] eqn:E. apply Hsign in E.
    destruct (span_digits x1) as [[|a d] r'] eqn:E'; [discriminate |].
    intros [= _ <-]. apply span_digits_length in E'. lia. }
  destruct (starts_with "-" s) as [s0|] eqn:Es.
  - apply starts_with_length in Es.
    destruct (parse_int s0) as [[i s2]|] eqn:E1; [| discriminate].
    destruct (parse_frac s2) as [[f s3]|] eqn:E2; [| discriminate].
    destruct (parse_exp s3) as [[e s4]|] eqn:E3; [| discriminate].
    injection H as _ <-.
    apply Hint in E1. apply Hfrac in E2. apply Hexp in E3. lia.
  - destruct (parse_int s) as [[i s2]|] eqn:E1; [| discriminate].
    destruct (parse_frac s2) as [[f s3]|] eqn:E2; [| discriminate].
    destruct (parse_exp s3) as [[e s4]|] eqn:E3; [| discriminate].
    injection H as _ <-.
    apply Hint in E1. apply Hfrac in E2. apply Hexp in E3. lia.
Qed.

Lemma strip_prefix_length p s r :
  strip_prefix p s = Some r -> String.length s = (String.length p + String.length r)%nat.
Proof.
  revert s. induction p as [|a p IH]; intros s; simpl.
  - now intros [= ->].
  - destruct s as [|b s]; [discriminate |].
    destruct (a =? b)%char; [| discriminate].
    intros H. apply IH in H. simpl. lia.
Qed.

Lemma parse_chars_fuel s : parse_chars s <> OutOfFuel.
Proof.
  remember (String.length s) as n eqn:Hn. revert s Hn.
  induction n as [n IH] using lt_wf_ind. intros s Hn.
  assert (Hpush : forall c t, (String.length t < n)%nat -> push c (parse_chars t) <> OutOfFuel).
  { intros c t Ht. pose proof (IH _ Ht t eq_refl) as Hc.
    destruct (parse_chars t); simpl; congruence. }
  destruct s as [|c s]; [discriminate |]. simpl in Hn |- *.
  destruct (c =? dquote)%char; [discriminate |].
  destruct (c =? backslash)%char.
  - destruct s as [|e s]; [discriminate |].
    destruct (e =? "u")%char.
    + destruct s as [|h1 [|h2 [|h3 [|h4 s]]]]; try discriminate.
      destruct (hex4 h1 h2 h3 h4) as [m|]; [| discriminate].
      destruct (m <? 256)%N; [| discriminate].
      apply Hpush. simpl in *. lia.
    + destruct (unescape e); [| discriminate].
      apply Hpush. simpl in *. lia.
  - destruct (code c <? 32)%N; [discriminate |].
    apply Hpush. simpl in *. lia.
Qed.

#[local] Arguments strip_prefix : simpl never.
#[local] Arguments Ascii.eqb : simpl never.
#[local] Arguments parse_number : simpl never.
#[local] Arguments parse_chars : simpl never.
#[local] Arguments starts_with : simpl never.

(** A successful parse consumes at least one character. *)
Lemma parse_consumes n :
  (forall s v r, parse_value n s = Done v r -> (String.length r < String.length s)%nat) /\
  (forall s vs r, parse_elements n s = Done vs r -> (String.length r < String.length s)%nat) /\
  (forall s ms r, parse_members n s = Done ms r -> (String.length r < String.length s)%nat).
Proof.
  induction n as [|n (IHv & IHe & IHm)]; [repeat split; discriminate |].
  split; [| split].
  - intros s v r. simpl.
    pose proof (skip_ws_length s) as Hs.
    destruct (skip_ws s) as [|c t] eqn:Es; [discriminate |]. simpl in Hs.
    pose proof (skip_ws_length t) as Ht.
    destruct (c =? "{")%char.
    { destruct (starts_with "}" (skip_ws t)) as [t'|] eqn:E.
      - apply starts_with_length in E. intros [= _ <-]. lia.
      - destruct (parse_members n t) as [ms rest| | |] eqn:Em; try discriminate.
        intros [= _ <-]. apply IHm in Em. lia. }
    destruct (c =? "[")%char.
    { destruct (starts_with "]" (skip_ws t)) as [t'|] eqn:E.
      - apply starts_with_length in E. intros [= _ <-]. lia.
      - destruct (parse_elements n t) as [vs rest| | |] eqn:Ee; try discriminate.
        intros [= _ <-]. apply IHe in Ee. lia. }
    destruct (c =? dquote)%char.
    { destruct (parse_chars t) as [str rest| | |] eqn:E; try discriminate.
      intros [= _ <-]. apply parse_chars_length in E. lia. }
    destruct (strip_prefix "true" (String c t)) as [rest|] eqn:E1.
    { intros [= _ <-]. apply strip_prefix_length in E1. simpl in E1. lia. }
    destruct (strip_prefix "false" (String c t)) as [rest|] eqn:E2.
    { intros [= _ <-]. apply strip_prefix_length in E2. simpl in E2. lia. }
    destruct (strip_prefix "null" (String c t)) as [rest|] eqn:E3.
    { intros [= _ <-]. apply strip_prefix_length in E3. simpl in E3. lia. }
    destruct (parse_number (String c t)) as [[lexeme rest]|] eqn:E4; [| discriminate].
    intros [= _ <-]. apply parse_number_length in E4. simpl in E4. lia.
  - intros s vs r. simpl.
    destruct (parse_value n s) as [v rest| | |] eqn:Ev; try discriminate.
    apply IHv in Ev. pose proof (skip_ws_length rest) as Hr.
    destruct (skip_ws rest) as [|c t]; [discriminate |]. simpl in Hr.
    destruct (c =? ",")%char.
    { destruct (parse_elements n t) as [vs' rest'| | |] eqn:Ee; try discriminate.
      intros [= _ <-]. apply IHe in Ee. lia. }
    destruct (c =? "]")%char; [| discriminate].
    intros [= _ <-]. lia.
  - intros s ms r. simpl.
    pose proof (skip_ws_length s) as Hs.
    destruct (starts_with dquote (skip_ws s)) as [t|] eqn:E; [| discriminate].
    apply starts_with_length in E.
    destruct (parse_chars t) as [k t1| | |] eqn:Ek; try discriminate.
    apply parse_chars_length in Ek. pose proof (skip_ws_length t1) as Ht1.
    destruct (starts_with ":" (skip_ws t1)) as [t2|] eqn:E2; [| discriminate].
    apply starts_with_length in E2.
    destruct (parse_value n t2) as [v rest| | |] eqn:Ev; try discriminate.
    apply IHv in Ev. pose proof (skip_ws_length rest) as Hr.
    destruct (skip_ws rest) as [|c t3]; [discriminate |]. simpl in Hr.
    destruct (c =? ",")%char.
    { destruct (parse_members n t3) as [ms' rest'| | |] eqn:Em; try discriminate.
      intros [= _ <-]. apply IHm in Em. lia. }
    destruct (c =? "}")%char; [| discriminate].
    intros [= _ <-]. lia.
Qed.

(** With fuel above twice the length of the text the parser never stops
    for lack of fuel. *)
Lemma parse_fuel_enough n :
  (forall s, (2 * String.length s < n)%nat -> parse_value n s <> OutOfFuel) /\
  (forall s, (2 * String.length s + 1 < n)%nat -> parse_elements n s <> OutOfFuel) /\
  (forall s, (2 * String.length s + 1 < n)%nat -> parse_members n s <> OutOfFuel).
Proof.
  induction n as [|n (IHv & IHe & IHm)]; [repeat split; intros; lia |].
  destruct (parse_consumes n) as (Cv & Ce & Cm).
  split; [| split].
  - intros s Hn. simpl.
    pose proof (skip_ws_length s) as Hs.
    destruct (skip_ws s) as [|c t] eqn:Es; [discriminate |]. simpl in Hs.
    destruct (c =? "{")%char.
    { destruct (starts_with "}" (skip_ws t)); [discriminate |].
      assert (Hm : parse_members n t <> OutOfFuel) by (apply IHm; lia).
      destruct (parse_members n t); congruence. }
    destruct (c =? "[")%char.
    { destruct (starts_with "]" (skip_ws t)); [discriminate |].
      assert (He : parse_elements n t <> OutOfFuel) by (apply IHe; lia).
      destruct (parse_elements n t); congruence. }
    destruct (c =? dquote)%char.
    { pose proof (parse_chars_fuel t) as Hc.
      destruct (parse_chars t) as [str rest| | |]; congruence. }
    destruct (strip_prefix "true" (String c t)); [discriminate |].
    destruct (strip_prefix "false" (String c t)); [discriminate |].
    destruct (strip_prefix "null" (String c t)); [discriminate |].
    destruct (parse_number (String c t)) as [[lexeme rest]|]; discriminate.
  - intros s Hn. simpl.
    assert (Hv : parse_value n s <> OutOfFuel) by (apply IHv; lia).
    destruct (parse_value n s) as [v rest| | |] eqn:Ev; try congruence.
    apply Cv in Ev. pose proof (skip_ws_length rest) as Hr.
    destruct (skip_ws rest) as [|c t]; [discriminate |]. simpl in Hr.
    destruct (c =? ",")%char.
    { assert (He : parse_elements n t <> OutOfFuel) by (apply IHe; lia).
      destruct (parse_elements n t); congruence. }
    destruct (c =? "]")%char; discriminate.
  - intros s Hn. simpl.
    pose proof (skip_ws_length s) as Hs.
    destruct (starts_with dquote (skip_ws s)) as [t|] eqn:E; [| discriminate].
    apply starts_with_length in E.
    pose proof (parse_chars_fuel t) as Hc.
    destruct (parse_chars t) as [k t1| | |] eqn:Ek; try congruence.
    apply parse_chars_length in Ek. pose proof (skip_ws_length t1) as Ht1.
    destruct (starts_with ":" (skip_ws t1)) as [t2|] eqn:E2; [| discriminate].
    apply starts_with_length in E2.
    assert (Hv : parse_value n t2 <> OutOfFuel) by (apply IHv; lia).
    destruct (parse_value n t2) as [v rest| | |] eqn:Ev; try congruence.
    apply Cv in Ev. pose proof (skip_ws_length rest) as Hr.
    destruct (skip_ws rest) as [|c t3]; [discriminate |]. simpl in Hr.
    destruct (c =? ",")%char.
    { assert (Hm : parse_members n t3 <> OutOfFuel) by (apply IHm; lia).
      destruct (parse_members n t3); congruence. }
    destruct (c =? "}")%char; discriminate.
Qed.

(** [JSON_parse] gives the parser fuel enough: it never stops for lack of
    fuel. *)
Lemma JSON_parse_never_out_of_fuel text :
  parse_value (parse_fuel text) text <> OutOfFuel.
Proof. apply parse_fuel_enough. unfold parse_fuel. lia. Qed.

End ParserFuel.

(** * The handlers *)

Section Handlers.

#[local] Arguments KV.get : simpl never.
#[local] Arguments KV.put : simpl never.

Lemma handleUnsubscribe_no_token request st :
  present (assoc "token" (searchParams request)) = false ->
  handleUnsubscribe request st
  = (Ok (html_response 400 "Error" "Invalid unsubscribe link."), st).
Proof.
  unfold handleUnsubscribe. intros H.
  destruct (assoc "token" (searchParams request)) as [tok|]; [| reflexivity].
  now rewrite H.
Qed.

Lemma handleUnsubscribe_run request st token :
  assoc "token" (searchParams request) = Some token -> token <> EmptyString ->
  handleUnsubscribe request st =
    match unsubscribe_scan token (scan_order st) st with
    | (Ok true, st') =>
        (Ok (html_response 200 "Unsubscribed" "You have been unsubscribed from job alerts."),
         st')
    | (Ok false, st') =>
        (Ok (html_response 404 "Not Found" "Subscription not found or already unsubscribed."),
         st')
    | (Throw e, st') => (Throw e, st')
    end.
Proof.
  unfold handleUnsubscribe. intros -> Hne. apply present_Some in Hne. rewrite Hne.
  unfold bind at 1, KV.list. change (KV.keys st) with (scan_order st). unfold bind, ret.
  destruct (unsubscribe_scan token (scan_order st) st) as [[[|]|e] st']; reflexivity.
Qed.

Lemma handleListSubscribers_run request API_SECRET st :
  differs (assoc "key" (searchParams request)) API_SECRET = false ->
  handleListSubscribers request API_SECRET st =
    match list_scan (scan_order st) st with
    | (Ok subscribers, st') =>
        match stringify (VObject [("subscribers", VArray subscribers)]) with
        | Ok text =>
            (Ok {| body := text;
                   status := 200;
                   headers := [("Content-Type", "application/json")] |}, st')
        | Throw e => (Throw e, st')
        end
    | (Throw e, st') => (Throw e, st')
    end.
Proof.
  unfold handleListSubscribers. intros ->.
  unfold bind at 1, KV.list. change (KV.keys st) with (scan_order st). unfold bind, lift, ret.
  destruct (list_scan (scan_order st) st) as [[subscribers|e] st']; [| reflexivity].
  destruct (stringify (VObject [("subscribers", VArray subscribers)])); reflexivity.
Qed.

Lemma stringify_Ok v text : stringify v = Ok text -> text = JSON_stringify v /\ printable v = true.
Proof. unfold stringify. destruct (printable v); [now intros [= <-] | discriminate]. Qed.

Lemma stringify_printable v : printable v = true -> stringify v = Ok (JSON_stringify v).
Proof. unfold stringify. now intros ->. Qed.

Lemma printable_subscribers subscribers :
  printable (VObject [("subscribers", VArray subscribers)]) = forallb printable subscribers.
Proof. simpl. apply andb_true_r. Qed.

Lemma printable_subscriber key token subscribed_at :
  printable (subscriber key token subscribed_at) = printable token && printable subscribed_at.
Proof. simpl. now rewrite andb_true_r. Qed.

(** A property of a value without a number out of canonical form has
    none. *)
Lemma printable_get_prop v name x :
  printable v = true -> get_prop v name = Ok x -> printable x = true.
Proof.
  destruct v as [| |b|n|s|l|ms]; simpl; intros Hp; try discriminate;
    try (intros [= <-]; reflexivity).
  intros [= <-]. induction ms as [|[k m] ms IH]; [reflexivity |].
  simpl in Hp |- *. apply andb_prop in Hp as [Hm Hms].
  destruct (String.eqb name k); [exact Hm | now apply IH].
Qed.

Lemma differs_false key API_SECRET :
  differs key API_SECRET = false <-> exists s, key = Some s /\ API_SECRET = Some s.
Proof.
  unfold differs. destruct key as [k|], API_SECRET as [s|];
    try (split; [discriminate | intros (x & ? & ?); discriminate]).
  rewrite negb_false_iff, String.eqb_eq. split.
  - intros ->. now exists s.
  - intros (x & [= ->] & [= ->]). reflexivity.
Qed.

Lemma handleListSubscribers_unauthorized request API_SECRET st :
  differs (assoc "key" (searchParams request)) API_SECRET = true ->
  handleListSubscribers request API_SECRET st
  = (Ok {| body := JSON_stringify (VObject [("error", VString "Unauthorized")]);
           status := 401;
           headers := [("Content-Type", "application/json")] |}, st).
Proof. unfold handleListSubscribers. now intros ->. Qed.

(** Subscribe never throws, and all its responses have the same headers. *)
Lemma handleSubscribe_headers request rt st :
  exists r st', handleSubscribe request rt st = (Ok r, st') /\
                headers r = ("Content-Type", "application/json") :: CORS_HEADERS.
Proof.
  unfold handleSubscribe, try_catch, bind, lift, ret.
  destruct (JSON_parse (body_text request)) as [parsed|]; [| eauto].
  destruct (get_prop parsed "email") as [email|]; [| eauto].
  destruct (truthy email); simpl; [| eauto].
  destruct (isValidEmail email) as [[|]|]; simpl; [| eauto | eauto].
  destruct (normalize email) as [key|]; simpl; [| eauto].
  destruct (KV.get key st) as [[existing|x] st0]; [| eauto].
  destruct (present existing); [eauto |].
  unfold KV.put. destruct (KV.refused key); eauto.
Qed.



(** In a well-formed store every record either is skipped or parses. *)
Lemma well_formed_listable st key :
  well_formed st -> is_Some (st !! key) -> listable st key.
Proof.
  intros Hwf [text Hl].
  destruct (String.eqb_spec text EmptyString) as [->|Hne].
  { left. now apply (skipped_stored st key EmptyString Hl). }
  destruct (Hwf key text Hl Hne) as (parsed & Hp & Hnull).
  right.
  assert (Hu : parsed <> VUndefined).
  { intros ->. now apply (JSON_parse_not_undefined text). }
  destruct parsed; try contradiction;
    eexists _, _; exists text; eexists; repeat split; eauto.
Qed.

Lemma well_formed_scan st : well_formed st -> Forall (listable st) (scan_order st).
Proof.
  intros Hwf. apply Forall_forall. intros key Hin.
  apply well_formed_listable; [exact Hwf | now apply scan_order_stored].
Qed.

Lemma listable_passed_over st key token :
  listable st key -> ~ token_matches st key token -> passed_over token st key.
Proof.
  intros [Hs|(t & a & Hrec)] Hno; [now left |].
  right. exists t, a. split; [exact Hrec |]. intros ->. apply Hno. now exists a.
Qed.

Lemma passed_over_no_match st key token :
  passed_over token st key -> ~ token_matches st key token.
Proof.
  intros [Hs|(t & a & Hrec & Hne)] (a' & Hrec').
  - destruct Hrec' as (text & parsed & Hl & Hnon & _).
    apply skipped_present in Hs. rewrite Hl in Hs. apply present_Some in Hnon. congruence.
  - destruct Hrec as (text & parsed & Hl & _ & Hp & Ht & _).
    destruct Hrec' as (text' & parsed' & Hl' & _ & Hp' & Ht' & _).
    assert (text' = text) by congruence. subst.
    assert (parsed' = parsed) by congruence. subst. congruence.
Qed.


(** What the handlers do to the store. *)
Lemma handleSubscribe_store request rt st :
  (handleSubscribe request rt st).2 = st \/
  exists key,
    (handleSubscribe request rt st).2
    = <[key := record_text (randomUUID rt) (toISOString rt)]> st.
Proof.
  unfold handleSubscribe, try_catch, bind, lift, ret.
  destruct (JSON_parse (body_text request)) as [parsed|]; [| now left].
  destruct (get_prop parsed "email") as [email|]; [| now left].
  destruct (truthy email); simpl; [| now left].
  destruct (isValidEmail email) as [[|]|]; simpl; [| now left | now left].
  destruct (normalize email) as [key|]; simpl; [| now left].
  destruct (KV.get key st) as [[existing|x] st0] eqn:Hg.
  2:{ left. pose proof (get_store key st) as Hs. now rewrite Hg in Hs. }
  apply get_Ok in Hg as [-> ->].
  destruct (present (st !! key)); [now left |].
  unfold KV.put. destruct (KV.refused key); [now left |]. right. now exists key.
Qed.

Lemma handleUnsubscribe_store request st :
  (handleUnsubscribe request st).2 = st \/
  exists key, (handleUnsubscribe request st).2 = delete key st.
Proof.
  destruct (present (assoc "token" (searchParams request))) eqn:Hp.
  - destruct (assoc "token" (searchParams request)) as [token|] eqn:Ht; [| discriminate].
    apply present_Some in Hp. rewrite (handleUnsubscribe_run _ _ _ Ht Hp).
    destruct (unsubscribe_scan_cases token (scan_order st) st)
      as [[Hr _]|[(pre & key & post & _ & _ & _ & Hr)|[e Hr]]]; rewrite Hr.
    + now left.
    + right. now exists key.
    + now left.
  - rewrite (handleUnsubscribe_no_token _ _ Hp). now left.
Qed.

Lemma handleListSubscribers_store request API_SECRET st :
  (handleListSubscribers request API_SECRET st).2 = st.
Proof.
  destruct (differs (assoc "key" (searchParams request)) API_SECRET) eqn:Hd.
  - now rewrite (handleListSubscribers_unauthorized _ _ _ Hd).
  - rewrite (handleListSubscribers_run _ _ _ Hd).
    pose proof (list_scan_store (scan_order st) st) as H.
    destruct (list_scan (scan_order st) st) as [[subscribers|e] st']; [| exact H].
    destruct (stringify (VObject [("subscribers", VArray subscribers)])); exact H.
Qed.

(** The worker keeps a store well formed: it only adds records that parse
    and removes records. *)
Lemma fetch_keeps_well_formed request API_SECRET rt st :
  well_formed st -> well_formed (fetch request API_SECRET rt st).2.
Proof.
  intros Hwf. unfold fetch.
  destruct (String.eqb (method request) "OPTIONS"); [exact Hwf |].
  destruct (String.eqb (pathname request) "/subscribe" && String.eqb (method request) "POST").
  { destruct (handleSubscribe_store request rt st) as [->|[key ->]]; [exact Hwf |].
    intros k text Hl Hne. apply lookup_insert_Some in Hl as [[_ <-]|[_ Hl]].
    - eexists. split; [apply JSON_parse_record | discriminate].
    - now apply (Hwf k text). }
  destruct (String.eqb (pathname request) "/unsubscribe" && String.eqb (method request) "GET").
  { destruct (handleUnsubscribe_store request st) as [->|[key ->]]; [exact Hwf |].
    intros k text Hl Hne. apply lookup_delete_Some in Hl as [_ Hl].
    now apply (Hwf k text). }
  destruct (String.eqb (pathname request) "/subscribers" && String.eqb (method request) "GET").
  { now rewrite handleListSubscribers_store. }
  exact Hwf.
Qed.

Lemma empty_well_formed : well_formed ∅.
Proof. intros key text Hl. now rewrite lookup_empty in Hl. Qed.

Lemma well_formed_insert_record st key token subscribed_at :
  well_formed st -> well_formed (<[key := record_text token subscribed_at]> st).
Proof.
  intros Hwf k text Hl Hne. apply lookup_insert_Some in Hl as [[_ <-]|[_ Hl]].
  - eexists. split; [apply JSON_parse_record | discriminate].
  - now apply (Hwf k text).
Qed.

Lemma canonical_numbers_insert_record st key token subscribed_at :
  canonical_numbers st -> canonical_numbers (<[key := record_text token subscribed_at]> st).
Proof.
  intros Hc k text parsed Hl Hp. apply lookup_insert_Some in Hl as [[_ <-]|[_ Hl]].
  - rewrite JSON_parse_record in Hp. injection Hp as <-. reflexivity.
  - now apply (Hc k text).
Qed.

Lemma empty_canonical_numbers : canonical_numbers ∅.
Proof. intros key text parsed Hl. now rewrite lookup_empty in Hl. Qed.

Lemma inserted_record_is (st : store) key token subscribed_at :
  record_is (<[key := record_text token subscribed_at]> st) key
    (VString token) (VString subscribed_at).
Proof.
  exists (record_text token subscribed_at),
    (VObject [("token", VString token); ("subscribed_at", VString subscribed_at)]).
  split; [apply lookup_insert_eq |].
  split; [intros E; pose proof (record_text_not_empty token subscribed_at) as Hn;
          rewrite E in Hn; discriminate |].
  split; [apply JSON_parse_record | split; reflexivity].
Qed.

Lemma record_is_present st key token subscribed_at :
  record_is st key token subscribed_at -> present (st !! key) = true.
Proof. intros (text & parsed & -> & Hne & _). now apply present_Some. Qed.

Lemma record_is_unique st key t a t' a' :
  record_is st key t a -> record_is st key t' a' -> t' = t /\ a' = a.
Proof.
  intros (text & parsed & Hl & _ & Hp & Ht & Ha) (text' & parsed' & Hl' & _ & Hp' & Ht' & Ha').
  assert (text' = text) by congruence. subst text'.
  assert (parsed' = parsed) by congruence. subst parsed'.
  split; congruence.
Qed.

(** A store with no more than a page of keys, after one more key. *)
Lemma size_insert_page (st : store) key text :
  (size st < KV.page_size)%nat -> (size (<[key := text]> st) <= KV.page_size)%nat.
Proof.
  intros H. rewrite map_size_insert. destruct (st !! key); simpl; lia.
Qed.

Lemma Forall2_elem_of_l {A B : Type} (P : A -> B -> Prop) (l : list A) (k : list B) (x : A) :
  Forall2 P l k -> x ∈ l -> exists y, y ∈ k /\ P x y.
Proof.
  induction 1 as [|a b l k Hab _ IH]; intros Hin; [inversion Hin |].
  apply elem_of_cons in Hin as [->|Hin].
  - exists b. split; [apply elem_of_cons; now left | exact Hab].
  - destruct (IH Hin) as (y & Hy & Hxy). exists y. split; [apply elem_of_cons; now right | exact Hxy].
Qed.

Lemma Forall2_elem_of_r {A B : Type} (P : A -> B -> Prop) (l : list A) (k : list B) (y : B) :
  Forall2 P l k -> y ∈ k -> exists x, x ∈ l /\ P x y.
Proof.
  induction 1 as [|a b l k Hab _ IH]; intros Hin; [inversion Hin |].
  apply elem_of_cons in Hin as [->|Hin].
  - exists a. split; [apply elem_of_cons; now left | exact Hab].
  - destruct (IH Hin) as (x & Hx & Hxy). exists x. split; [apply elem_of_cons; now right | exact Hxy].
Qed.

Lemma present_keys_elem st key :
  key ∈ present_keys st <-> key ∈ scan_order st /\ present (st !! key) = true.
Proof. unfold present_keys. rewrite list_elem_of_In, filter_In, <- list_elem_of_In. reflexivity. Qed.

(** The entries of the listing: the three fields of each. *)
Lemma subscriber_fields key token subscribed_at :
  get_prop (subscriber key token subscribed_at) "email" = Ok (VString key) /\
  get_prop (subscriber key token subscribed_at) "token" = Ok token /\
  get_prop (subscriber key token subscribed_at) "subscribed_at" = Ok subscribed_at.
Proof. repeat split. Qed.

(** When the listing returns, its body is the text of its entries, which
    are those of the records on the page, in scan order. *)
Lemma listing_sound request API_SECRET st r st' :
  differs (assoc "key" (searchParams request)) API_SECRET = false ->
  handleListSubscribers request API_SECRET st = (Ok r, st') ->
  st' = st /\ status r = 200%Z /\
  exists subscribers,
    body r = JSON_stringify (VObject [("subscribers", VArray subscribers)]) /\
    Forall2 (fun key entry => exists token subscribed_at,
               record_is st key token subscribed_at /\
               entry = subscriber key token subscribed_at)
            (present_keys st) subscribers.
Proof.
  intros Hauth. rewrite (handleListSubscribers_run _ _ _ Hauth).
  destruct (list_scan (scan_order st) st) as [[subscribers|e] st''] eqn:E; [| discriminate].
  destruct (stringify (VObject [("subscribers", VArray subscribers)])) as [text|] eqn:Es;
    [| discriminate].
  intros [= <- <-]. apply stringify_Ok in Es as [-> _].
  pose proof (list_scan_store (scan_order st) st) as Hst. rewrite E in Hst. simpl in Hst.
  split; [exact Hst |]. split; [reflexivity |].
  exists subscribers. split; [reflexivity |]. exact (list_scan_sound _ _ _ _ E).
Qed.

(** On a well-formed store whose numbers are canonical the listing
    returns. *)
Lemma listing_returns request API_SECRET st :
  differs (assoc "key" (searchParams request)) API_SECRET = false ->
  well_formed st -> canonical_numbers st ->
  exists subscribers,
    handleListSubscribers request API_SECRET st
    = (Ok {| body := JSON_stringify (VObject [("subscribers", VArray subscribers)]);
             status := 200;
             headers := [("Content-Type", "application/json")] |}, st) /\
    Forall2 (fun key entry => exists token subscribed_at,
               record_is st key token subscribed_at /\
               entry = subscriber key token subscribed_at)
            (present_keys st) subscribers.
Proof.
  intros Hauth Hwf Hc.
  destruct (list_scan_complete _ st (well_formed_scan st Hwf)) as (subscribers & Hscan).
  pose proof (list_scan_sound _ _ _ _ Hscan) as Hall. fold (present_keys st) in Hall.
  exists subscribers. split; [| exact Hall].
  rewrite (handleListSubscribers_run _ _ _ Hauth), Hscan, stringify_printable; [reflexivity |].
  rewrite printable_subscribers. apply forallb_forall. intros entry Hin.
  apply list_elem_of_In in Hin.
  destruct (Forall2_elem_of_r _ _ _ _ Hall Hin) as (key & _ & t & a & Hrec & ->).
  destruct Hrec as (text & parsed & Hl & _ & Hp & Ht & Ha).
  pose proof (Hc key text parsed Hl Hp) as Hpr.
  rewrite printable_subscriber.
  now rewrite (printable_get_prop _ _ _ Hpr Ht), (printable_get_prop _ _ _ Hpr Ha).
Qed.

(** The routes of [fetch]. *)
Lemma fetch_preflight request API_SECRET rt st :
  method request = "OPTIONS" ->
  fetch request API_SECRET rt st
  = (Ok {| body := None; status := 200; headers := CORS_HEADERS |}, st).
Proof. unfold fetch. now intros ->. Qed.

Lemma fetch_routes API_SECRET rt st email token key :
  fetch (subscribe_request email) API_SECRET rt st
    = handleSubscribe (subscribe_request email) rt st /\
  fetch (unsubscribe_request token) API_SECRET rt st
    = handleUnsubscribe (unsubscribe_request token) st /\
  fetch (subscribers_request key) API_SECRET rt st
    = handleListSubscribers (subscribers_request key) API_SECRET st.
Proof. repeat split. Qed.

End Handlers.

(** C8: when the supplied key is not a string equal to the configured
    secret, ListSubscribers answers 401 with a fixed body and does not touch
    the store; the response is the same whatever the store holds. *)
Theorem C8_wrong_secret_is_unauthorized
    (request : Request) (API_SECRET : option string) (st : store) :
  ~ (exists s, assoc "key" (searchParams request) = Some s /\ API_SECRET = Some s) ->
  handleListSubscribers request API_SECRET st
  = (Ok {| body := JSON_stringify (VObject [("error", VString "Unauthorized")]);
           status := 401;
           headers := [("Content-Type", "application/json")] |}, st) /\
  forall st' : store,
    (handleListSubscribers request API_SECRET st').1
    = (handleListSubscribers request API_SECRET st).1.
Proof.
  intros H.
  assert (Hd : differs (assoc "key" (searchParams request)) API_SECRET = true).
  { destruct (differs _ _) eqn:E; [reflexivity |]. apply differs_false in E. contradiction. }
  split.
  - now apply handleListSubscribers_unauthorized.
  - intros st'. now rewrite !(handleListSubscribers_unauthorized _ _ _ Hd).
Qed.

Lemma C8_witness :
  let st : store := {[ "ann@example.org" := record_text "tok-1" "2024-05-01T10:00:00.000Z" ]} in
  handleListSubscribers (subscribers_request "guess") (Some "s3cret") st
  = (Ok {| body := JSON_stringify (VObject [("error", VString "Unauthorized")]);
           status := 401;
           headers := [("Content-Type", "application/json")] |}, st) /\
  forall st' : store,
    (handleListSubscribers (subscribers_request "guess") (Some "s3cret") st').1
    = (handleListSubscribers (subscribers_request "guess") (Some "s3cret") st).1.
Proof.
  apply (C8_wrong_secret_is_unauthorized (subscribers_request "guess") (Some "s3cret")).
  intros (s & Hk & Hs). simpl in Hk. congruence.
Defined.



(** C7, as the worker has it: in a store where every value is empty or
    parses as JSON to something other than null, a token that is present
    and equals the token field of no record is answered 404 and the store
    is left as it was. *)
Theorem C7_unknown_token_is_not_found
    (request : Request) (st : store) (token : string) :
  assoc "token" (searchParams request) = Some token ->
  token <> EmptyString ->
  well_formed st ->
  (forall key, ~ token_matches st key token) ->
  handleUnsubscribe request st
  = (Ok (html_response 404 "Not Found" "Subscription not found or already unsubscribed."),
     st).
Proof.
  intros Ht Hne Hwf Hno.
  rewrite (handleUnsubscribe_run _ _ _ Ht Hne).
  assert (Hall : Forall (passed_over token st) (scan_order st)).
  { eapply Forall_impl; [apply (well_formed_scan st Hwf) |].
    intros key Hk. apply listable_passed_over; [exact Hk | apply Hno]. }
  pose proof (unsubscribe_scan_prefix token (scan_order st) [] st Hall) as Hrun.
  rewrite app_nil_r in Hrun. rewrite Hrun. reflexivity.
Qed.

Lemma C7_witness :
  let st : store := {[ "ann@example.org" := record_text "tok-1" "2024-05-01T10:00:00.000Z" ]} in
  handleUnsubscribe (unsubscribe_request "tok-9") st
  = (Ok (html_response 404 "Not Found" "Subscription not found or already unsubscribed."),
     st).
Proof.
  intros st.
  apply (C7_unknown_token_is_not_found (unsubscribe_request "tok-9") st "tok-9").
  - reflexivity.
  - discriminate.
  - intros key text Hl _. apply lookup_singleton_Some in Hl as [_ <-].
    eexists. split; [apply JSON_parse_record | discriminate].
  - intros key (a & text & parsed & Hl & _ & Hp & Ht & _).
    apply lookup_singleton_Some in Hl as [_ <-].
    rewrite JSON_parse_record in Hp. injection Hp as <-. discriminate Ht.
Defined.

(** The claim C7 fails on a store with a value that is not JSON: no record
    has the token, and the request ends with the exception of [JSON.parse]
    instead of a 404. *)
Lemma C7_counterexample :
  let st : store := {[ "bob@x.io" := "{oops" ]} in
  (forall key, ~ token_matches st key "tok-9") /\
  handleUnsubscribe (unsubscribe_request "tok-9") st = (Throw SyntaxError, st).
Proof.
  intros st. split; [| reflexivity].
  intros key (a & text & parsed & Hl & _ & Hp & _).
  apply lookup_singleton_Some in Hl as [_ <-]. discriminate Hp.
Qed.







(** C9: every entry that an authorized ListSubscribers returns comes from a
    record on the page that the scan visits: the [email] of the entry is
    the key of that record, and its [token] and [subscribed_at] are those
    fields of the stored value.  For a record that Subscribe has just
    created under a key that the store accepts, these are the email in
    lower case and the token and date given at creation, and the listing of
    a well-formed store of less than a page contains that entry. *)
Theorem C9_listing_round_trip
    (request : Request) (API_SECRET : option string) (st : store) :
  (exists s, assoc "key" (searchParams request) = Some s /\ API_SECRET = Some s) ->
  (forall r st',
     handleListSubscribers request API_SECRET st = (Ok r, st') ->
     st' = st /\ status r = 200%Z /\
     exists subscribers,
       body r = JSON_stringify (VObject [("subscribers", VArray subscribers)]) /\
       Forall (fun entry => exists key token subscribed_at,
                 key ∈ scan_order st /\
                 record_is st key token subscribed_at /\
                 get_prop entry "email" = Ok (VString key) /\
                 get_prop entry "token" = Ok token /\
                 get_prop entry "subscribed_at" = Ok subscribed_at) subscribers) /\
  (forall sub_request rt e,
     request_email sub_request = Ok (VString e) ->
     isValidEmail (VString e) = Ok true ->
     (KV.utf8_length (toLowerCase e) <= 512)%nat ->
     present (st !! toLowerCase e) = false ->
     well_formed st ->
     canonical_numbers st ->
     (size st < KV.page_size)%nat ->
     let st1 := (handleSubscribe sub_request rt st).2 in
     record_is st1 (toLowerCase e) (VString (randomUUID rt)) (VString (toISOString rt)) /\
     exists r subscribers entry,
       handleListSubscribers request API_SECRET st1 = (Ok r, st1) /\
       body r = JSON_stringify (VObject [("subscribers", VArray subscribers)]) /\
       entry ∈ subscribers /\
       get_prop entry "email" = Ok (VString (toLowerCase e)) /\
       get_prop entry "token" = Ok (VString (randomUUID rt)) /\
       get_prop entry "subscribed_at" = Ok (VString (toISOString rt))).
Proof.
  intros Hauth. apply differs_false in Hauth. split.
  - intros r st' Hrun.
    destruct (listing_sound _ _ _ _ _ Hauth Hrun) as (Hst & Hs & subscribers & Hb & Hall).
    split; [exact Hst |]. split; [exact Hs |].
    exists subscribers. split; [exact Hb |].
    apply Forall_forall. intros entry Hin.
    destruct (Forall2_elem_of_r _ _ _ _ Hall Hin) as (key & Hkey & t & a & Hrec & ->).
    apply present_keys_elem in Hkey as [Hkey _].
    exists key, t, a. split; [exact Hkey |]. split; [exact Hrec |]. apply subscriber_fields.
  - intros sub_request rt e Hreq Hv Hlen Hnone Hwf Hc Hsize st1.
    apply isValidEmail_string in Hv.
    pose proof (trim_no_space _ (no_space_toLowerCase e (valid_no_space e Hv))) as Htrim.
    rewrite <- Htrim in Hlen. apply refused_false in Hlen.
    destruct (subscribe_valid sub_request rt st e Hreq Hv (or_intror Hlen)) as (r0 & Hrun & _).
    rewrite Htrim in Hrun. rewrite Hnone in Hrun.
    assert (Hst1 : st1 = <[toLowerCase e := record_text (randomUUID rt) (toISOString rt)]> st).
    { unfold st1. now rewrite Hrun. }
    assert (Hrec : record_is st1 (toLowerCase e)
                     (VString (randomUUID rt)) (VString (toISOString rt))).
    { rewrite Hst1. apply inserted_record_is. }
    split; [exact Hrec |].
    assert (Hwf1 : well_formed st1) by (rewrite Hst1; now apply well_formed_insert_record).
    assert (Hc1 : canonical_numbers st1)
      by (rewrite Hst1; now apply canonical_numbers_insert_record).
    destruct (listing_returns request API_SECRET st1 Hauth Hwf1 Hc1)
      as (subscribers & Hlist & Hall).
    assert (Hkey : toLowerCase e ∈ present_keys st1).
    { apply present_keys_elem. split; [| now apply (record_is_present _ _ _ _ Hrec)].
      apply scan_order_whole.
      - rewrite Hst1. now apply size_insert_page.
      - destruct Hrec as (text & _ & Hl & _). now exists text. }
    destruct (Forall2_elem_of_l _ _ _ _ Hall Hkey) as (entry & Hin & t & a & Hrec' & ->).
    destruct (record_is_unique _ _ _ _ _ _ Hrec Hrec') as [-> ->].
    eexists _, subscribers, _. split; [exact Hlist |]. split; [reflexivity |].
    split; [exact Hin |]. apply subscriber_fields.
Qed.

Lemma C9_witness :
  let st : store := {[ "ann@example.org" := record_text "tok-1" "2024-05-01T10:00:00.000Z" ]} in
  let rt := runtime "tok-2" "2024-06-01T10:00:00.000Z" in
  let st1 := (handleSubscribe (subscribe_request "Bea@Example.org") rt st).2 in
  record_is st1 "bea@example.org" (VString "tok-2") (VString "2024-06-01T10:00:00.000Z") /\
  exists r subscribers entry,
    handleListSubscribers (subscribers_request "s3cret") (Some "s3cret") st1 = (Ok r, st1) /\
    body r = JSON_stringify (VObject [("subscribers", VArray subscribers)]) /\
    entry ∈ subscribers /\
    get_prop entry "email" = Ok (VString "bea@example.org") /\
    get_prop entry "token" = Ok (VString "tok-2") /\
    get_prop entry "subscribed_at" = Ok (VString "2024-06-01T10:00:00.000Z").
Proof.
  intros st rt.
  assert (Hauth : exists s, assoc "key" (searchParams (subscribers_request "s3cret")) = Some s
                            /\ Some "s3cret" = Some s)
    by (exists "s3cret"; split; reflexivity).
  destruct (C9_listing_round_trip (subscribers_request "s3cret") (Some "s3cret") st Hauth)
    as [_ H].
  apply (H (subscribe_request "Bea@Example.org") rt "Bea@Example.org").
  - reflexivity.
  - reflexivity.
  - vm_compute. lia.
  - reflexivity.
  - apply well_formed_insert_record, empty_well_formed.
  - apply canonical_numbers_insert_record, empty_canonical_numbers.
  - vm_compute. lia.
Defined.

(** * The pattern of [isValidEmail] *)

Section EmailShape.

Lemma lang_cat_inv a b s :
  lang (Cat a b) s -> exists u v, s = u +:+ v /\ lang a u /\ lang b v.
Proof. inversion 1; subst; eauto. Qed.

Lemma lang_class_inv p s :
  lang (Class p) s -> exists c, s = String c EmptyString /\ p c = true.
Proof. inversion 1; subst; eauto. Qed.

Lemma lang_star_class p s : lang (Star (Class p)) s <-> all_chars p s = true.
Proof.
  split.
  - intros H. remember (Star (Class p)) as r eqn:Hr.
    induction H as [|q c Hq|a b u v Hu IHu Hv IHv|a b u Hu IHu|a b u Hu IHu|a
                   |a c u v Hu IHu Hv IHv]; try discriminate; [reflexivity |].
    injection Hr as ->. apply lang_class_inv in Hu as (d & [= -> ->] & Hd).
    simpl. now rewrite Hd, IHv.
  - induction s as [|c s IH]; simpl; intros H; [constructor |].
    apply andb_prop in H as [Hc Hs].
    change (String c s) with (String c EmptyString +:+ s).
    apply lang_star_cons; [now constructor | auto].
Qed.

Lemma lang_plus_class p s :
  lang (Plus (Class p)) s <-> s <> EmptyString /\ all_chars p s = true.
Proof.
  unfold Plus. split.
  - intros H. apply lang_cat_inv in H as (u & v & -> & Hu & Hv).
    apply lang_class_inv in Hu as (c & -> & Hc). apply lang_star_class in Hv.
    simpl. rewrite Hc, Hv. split; [discriminate | reflexivity].
  - intros [Hne H]. destruct s as [|c s]; [contradiction |]. simpl in H.
    apply andb_prop in H as [Hc Hs].
    change (String c s) with (String c EmptyString +:+ s).
    constructor; [now constructor | now apply lang_star_class].
Qed.

Lemma email_pattern_shape e :
  matches email_pattern e = true <->
  exists local domain tld,
    e = local +:+ "@" +:+ domain +:+ "." +:+ tld /\
    plain local /\ plain domain /\ plain tld.
Proof.
  rewrite matches_lang. unfold email_pattern, plain. split.
  - intros H.
    apply lang_cat_inv in H as (l & r1 & -> & Hl & H).
    apply lang_cat_inv in H as (a & r2 & -> & Ha & H).
    apply lang_cat_inv in H as (d & r3 & -> & Hd & H).
    apply lang_cat_inv in H as (o & t & -> & Ho & Ht).
    apply lang_class_inv in Ha as (c & -> & Hc). apply Ascii.eqb_eq in Hc. subst c.
    apply lang_class_inv in Ho as (c & -> & Hc). apply Ascii.eqb_eq in Hc. subst c.
    apply lang_plus_class in Hl, Hd, Ht. exists l, d, t. auto.
  - intros (l & d & t & -> & Hl & Hd & Ht).
    apply lang_plus_class in Hl, Hd, Ht.
    constructor; [exact Hl |].
    constructor; [now constructor |].
    constructor; [exact Hd |].
    constructor; [now constructor | exact Ht].
Qed.

Lemma not_space_at_lower_char c : not_space_at (lower_char c) = not_space_at c.
Proof. destruct c as [[] [] [] [] [] [] [] []]; reflexivity. Qed.

Lemma toLowerCase_append s t : toLowerCase (s +:+ t) = toLowerCase s +:+ toLowerCase t.
Proof. induction s as [|c s IH]; simpl; [reflexivity | now rewrite IH]. Qed.

Lemma toLowerCase_idempotent s : toLowerCase (toLowerCase s) = toLowerCase s.
Proof.
  induction s as [|c s IH]; simpl; [reflexivity |].
  rewrite IH. f_equal. destruct c as [[] [] [] [] [] [] [] []]; reflexivity.
Qed.

Lemma plain_toLowerCase s : plain s -> plain (toLowerCase s).
Proof.
  intros [Hne H]. split.
  - destruct s; [contradiction | discriminate].
  - clear Hne. induction s as [|c s IH]; simpl in *; [reflexivity |].
    apply andb_prop in H as [Hc Hs]. now rewrite not_space_at_lower_char, Hc, IH.
Qed.

Lemma valid_toLowerCase e :
  matches email_pattern e = true -> matches email_pattern (toLowerCase e) = true.
Proof.
  rewrite !email_pattern_shape. intros (l & d & t & -> & Hl & Hd & Ht).
  exists (toLowerCase l), (toLowerCase d), (toLowerCase t).
  rewrite !toLowerCase_append. simpl.
  split; [reflexivity |]. auto using plain_toLowerCase.
Qed.

(** The key of a valid email is a valid email in lower case. *)
Lemma key_of_valid e :
  matches email_pattern e = true ->
  trim (toLowerCase e) = toLowerCase e /\
  matches email_pattern (toLowerCase e) = true /\
  toLowerCase (toLowerCase e) = toLowerCase e.
Proof.
  intros H. split; [| split].
  - apply trim_no_space, no_space_toLowerCase, valid_no_space, H.
  - now apply valid_toLowerCase.
  - apply toLowerCase_idempotent.
Qed.

End EmailShape.

(** X1: [isValidEmail] accepts a string exactly when it is a local part, an
    [@], a domain part, a dot and a last part, each part a run of one or
    more characters that are neither whitespace nor [@]. *)
Theorem X1_isValidEmail_accepts_local_at_domain_dot_tld (e : string) :
  isValidEmail (VString e) = Ok true <->
  exists local domain tld,
    e = local +:+ "@" +:+ domain +:+ "." +:+ tld /\
    plain local /\ plain domain /\ plain tld.
Proof. rewrite isValidEmail_string. apply email_pattern_shape. Qed.

(** X2: the key that Subscribe computes from a valid email is itself a valid
    email and is its own key: normalizing twice changes nothing. *)
Theorem X2_normalized_key_is_valid_and_stable (e key : string) :
  isValidEmail (VString e) = Ok true ->
  normalize (VString e) = Ok key ->
  isValidEmail (VString key) = Ok true /\ normalize (VString key) = Ok key.
Proof.
  intros Hv Hk. apply isValidEmail_string in Hv.
  destruct (key_of_valid e Hv) as (Ht & Hvalid & Hidem).
  simpl in Hk. rewrite Ht in Hk. injection Hk as <-.
  split; [now apply isValidEmail_string |].
  simpl. rewrite Hidem, Ht. reflexivity.
Qed.

Lemma X2_witness :
  isValidEmail (VString "jane.doe@example.com") = Ok true /\
  normalize (VString "jane.doe@example.com") = Ok "jane.doe@example.com".
Proof.
  apply (X2_normalized_key_is_valid_and_stable "Jane.Doe@Example.COM"); reflexivity.
Defined.

(** * Subscribe: every outcome *)

Section SubscribeOutcomes.

(** Either Subscribe leaves the store as it was, or the email is a valid
    string without a record and the new record is written under its key,
    which the store accepts. *)
Lemma handleSubscribe_effect request rt st :
  exists r,
    (handleSubscribe request rt st = (Ok r, st) /\
     (json_reply r 400 "error" "Invalid email" \/
      json_reply r 200 "message" "Already subscribed" \/
      json_reply r 500 "error" "Server error")) \/
    (exists e,
       request_email request = Ok (VString e) /\
       matches email_pattern e = true /\
       present (st !! trim (toLowerCase e)) = false /\
       handleSubscribe request rt st
       = (Ok r, <[trim (toLowerCase e) := record_text (randomUUID rt) (toISOString rt)]> st) /\
       json_reply r 200 "message" "Subscribed successfully").
Proof.
  destruct (request_email request) as [email|x] eqn:Hreq.
  2:{ destruct (subscribe_unreadable_body request rt st x Hreq) as (r & Hrun & Hrep).
      exists r. left. split; [exact Hrun | right; right; exact Hrep]. }
  destruct (truthy email) eqn:Ht.
  2:{ destruct (subscribe_invalid request rt st email Hreq (or_introl Ht))
        as (r & Hrun & Hrep & _).
      exists r. left. split; [exact Hrun | left; exact Hrep]. }
  destruct (isValidEmail email) as [[|]|x] eqn:Hv.
  - destruct email as [| |b|n|e|l|ms].
    5:{ apply isValidEmail_string in Hv.
        destruct (present (st !! trim (toLowerCase e))) eqn:Hp.
        - destruct (subscribe_valid request rt st e Hreq Hv (or_introl Hp))
            as (r & Hrun & Hrep & _).
          rewrite Hp in Hrun, Hrep.
          exists r. left. split; [exact Hrun | right; left; exact Hrep].
        - destruct (KV.refused (trim (toLowerCase e))) eqn:Href.
          + destruct (subscribe_refused request rt st e Hreq Hv Hp Href) as (r & Hrun & Hrep).
            exists r. left. split; [exact Hrun | right; right; exact Hrep].
          + destruct (subscribe_valid request rt st e Hreq Hv (or_intror Href))
              as (r & Hrun & Hrep & _).
            rewrite Hp in Hrun, Hrep.
            exists r. right. exists e. split; [reflexivity |]. split; [exact Hv |].
            split; [exact Hp |]. split; [exact Hrun | exact Hrep]. }
    all: eexists; left; split;
      [ unfold request_email in Hreq;
        unfold handleSubscribe, try_catch, bind, lift, ret;
        destruct (JSON_parse (body_text request)) as [parsed|]; [| discriminate];
        rewrite Hreq, Ht; simpl negb; cbv iota; rewrite Hv; reflexivity
      | right; right; split; reflexivity ].
  - destruct (subscribe_invalid request rt st email Hreq (or_intror Hv))
      as (r & Hrun & Hrep & _).
    exists r. left. split; [exact Hrun | left; exact Hrep].
  - eexists. left. split.
    + unfold request_email in Hreq.
      unfold handleSubscribe, try_catch, bind, lift, ret.
      destruct (JSON_parse (body_text request)) as [parsed|]; [| discriminate].
      rewrite Hreq, Ht. simpl negb. cbv iota. rewrite Hv. reflexivity.
    + right; right. split; reflexivity.
Qed.

End SubscribeOutcomes.

(** X3: Subscribe always returns a response, with one of four fixed bodies,
    none of which carries the token.  It writes only when it answers
    "Subscribed successfully", and then exactly one record, under a key that
    had no record. *)
Theorem X3_subscribe_outcomes (request : Request) (rt : Runtime) (st : store) :
  exists r st',
    handleSubscribe request rt st = (Ok r, st') /\
    ((json_reply r 200 "message" "Subscribed successfully" /\
      exists key, present (st !! key) = false /\
                  st' = <[key := record_text (randomUUID rt) (toISOString rt)]> st) \/
     (st' = st /\
      (json_reply r 400 "error" "Invalid email" \/
       json_reply r 200 "message" "Already subscribed" \/
       json_reply r 500 "error" "Server error"))).
Proof.
  destruct (handleSubscribe_effect request rt st)
    as (r & [[Hrun Hrep]|(e & _ & _ & Hp & Hrun & Hrep)]).
  - exists r, st. split; [exact Hrun |]. right. split; [reflexivity | exact Hrep].
  - eexists r, _. split; [exact Hrun |]. left. split; [exact Hrep |].
    exists (trim (toLowerCase e)). split; [exact Hp | reflexivity].
Qed.

(** X4: Subscribe never replaces or removes an existing record: a key that
    holds a non-empty value holds the same value afterwards, so the token of
    a subscriber does not change when the address is subscribed again. *)
Theorem X4_subscribe_keeps_existing_records
    (request : Request) (rt : Runtime) (st : store) (key text : string) :
  st !! key = Some text ->
  text <> EmptyString ->
  (handleSubscribe request rt st).2 !! key = Some text.
Proof.
  intros Hl Hne.
  destruct (handleSubscribe_effect request rt st)
    as (r & [[Hrun _]|(e & _ & _ & Hp & Hrun & _)]); rewrite Hrun; simpl.
  - exact Hl.
  - destruct (decide (trim (toLowerCase e) = key)) as [E|E].
    + rewrite E, Hl in Hp. apply present_Some in Hne. congruence.
    + rewrite lookup_insert_ne by exact E. exact Hl.
Qed.

Lemma X4_witness :
  let st : store := {[ "ann@example.org" := record_text "tok-1" "2024-05-01T10:00:00.000Z" ]} in
  (handleSubscribe (subscribe_request "ANN@example.org")
     (runtime "tok-2" "2024-06-01T10:00:00.000Z") st).2 !! "ann@example.org"
  = Some (record_text "tok-1" "2024-05-01T10:00:00.000Z").
Proof.
  intros st.
  apply (X4_subscribe_keeps_existing_records (subscribe_request "ANN@example.org")).
  - reflexivity.
  - discriminate.
Defined.

(** X5: when the body of the request is not JSON (an empty body is not), or
    is the JSON null, the exception is caught: Subscribe answers 500 "Server
    error" with the cross-origin headers and writes nothing. *)
Theorem X5_subscribe_unreadable_body_is_server_error
    (request : Request) (rt : Runtime) (st : store) :
  JSON_parse (body_text request) = Throw SyntaxError \/
  JSON_parse (body_text request) = Ok VNull ->
  exists r,
    handleSubscribe request rt st = (Ok r, st) /\
    json_reply r 500 "error" "Server error" /\
    cors_headers r = CORS_HEADERS.
Proof.
  intros H.
  assert (Hreq : exists x, request_email request = Throw x).
  { unfold request_email. destruct H as [-> | ->]; simpl; eauto. }
  destruct Hreq as [x Hreq].
  destruct (subscribe_unreadable_body request rt st x Hreq) as (r & Hrun & Hrep).
  exists r. split; [exact Hrun |]. split; [exact Hrep |].
  destruct (handleSubscribe_headers request rt st) as (r' & st' & Hrun' & Hh).
  rewrite Hrun in Hrun'. injection Hrun' as <- _.
  unfold cors_headers. now rewrite Hh.
Qed.

Lemma X5_witness :
  exists r,
    handleSubscribe {| method := "POST"; pathname := "/subscribe"; searchParams := [];
                       body_text := EmptyString |}
      (runtime "tok-1" "2024-05-01T10:00:00.000Z") ∅ = (Ok r, ∅) /\
    json_reply r 500 "error" "Server error" /\
    cors_headers r = CORS_HEADERS.
Proof.
  apply (X5_subscribe_unreadable_body_is_server_error
           {| method := "POST"; pathname := "/subscribe"; searchParams := [];
              body_text := EmptyString |}).
  left. reflexivity.
Defined.

(** X6: validation converts its argument to a string, normalization does
    not.  An email that is not a string but whose string form matches the
    pattern, such as an array holding one address, passes validation and
    then has no [toLowerCase]: Subscribe answers 500 and writes nothing. *)
Theorem X6_subscribe_non_string_email_is_server_error
    (request : Request) (rt : Runtime) (st : store) (email : value) :
  request_email request = Ok email ->
  (forall e, email <> VString e) ->
  truthy email = true ->
  isValidEmail email = Ok true ->
  exists r,
    handleSubscribe request rt st = (Ok r, st) /\
    json_reply r 500 "error" "Server error".
Proof.
  intros Hreq Hns Ht Hv. eexists. split.
  - unfold request_email in Hreq.
    unfold handleSubscribe, try_catch, bind, lift, ret.
    destruct (JSON_parse (body_text request)) as [parsed|]; [| discriminate].
    rewrite Hreq, Ht. simpl negb. cbv iota. rewrite Hv.
    destruct email; try reflexivity. exfalso. now eapply Hns.
  - split; reflexivity.
Qed.

Lemma X6_witness :
  let request := {| method := "POST"; pathname := "/subscribe"; searchParams := [];
                    body_text := "{" +:+ quote "email" +:+ ":[" +:+ quote "a@b.co" +:+ "]}" |} in
  request_email request = Ok (VArray [VString "a@b.co"]) /\
  exists r,
    handleSubscribe request (runtime "tok-1" "2024-05-01T10:00:00.000Z") ∅ = (Ok r, ∅) /\
    json_reply r 500 "error" "Server error".
Proof.
  intros request. split; [reflexivity |].
  apply (X6_subscribe_non_string_email_is_server_error request _ _
           (VArray [VString "a@b.co"])); try reflexivity.
  intros e. discriminate.
Defined.

(** * Unsubscribe and ListSubscribers on a well-formed store *)

Section WellFormed.

Lemma listable_cases st key token :
  listable st key -> passed_over token st key \/ token_matches st key token.
Proof.
  intros [Hs|(t & a & Hrec)]; [left; now left |].
  destruct (strict_equals_string t token) eqn:E.
  - apply strict_equals_string_true in E. subst t. right. now exists a.
  - left. right. exists t, a. split; [exact Hrec |].
    intros ->. simpl in E. now rewrite String.eqb_refl in E.
Qed.

(** With every key listable the scan does not throw. *)
Lemma unsubscribe_scan_listable token keys st :
  Forall (listable st) keys ->
  (unsubscribe_scan token keys st = (Ok false, st) /\
   Forall (passed_over token st) keys) \/
  (exists pre key post,
     keys = (pre ++ key :: post)%list /\ Forall (passed_over token st) pre /\
     token_matches st key token /\
     unsubscribe_scan token keys st = (Ok true, delete key st)).
Proof.
  induction 1 as [|key keys Hk _ IH].
  - left. split; [reflexivity | constructor].
  - destruct (listable_cases st key token Hk) as [Hp|Hm].
    + rewrite (unsubscribe_scan_pass _ _ _ _ Hp).
      destruct IH as [[Hr Hall]|(pre & k & post & -> & Hpre & Hm & Hr)].
      * left. split; [exact Hr | now constructor].
      * right. exists (key :: pre), k, post.
        split; [reflexivity |]. split; [now constructor | now split].
    + right. exists [], key, keys.
      split; [reflexivity |]. split; [constructor |].
      split; [exact Hm | now apply unsubscribe_scan_match].
Qed.

Lemma token_matches_lookup st1 st2 key token :
  st1 !! key = st2 !! key -> token_matches st1 key token -> token_matches st2 key token.
Proof.
  intros E (a & text & parsed & Hl & H). exists a, text, parsed.
  split; [now rewrite <- E | exact H].
Qed.

(** A token that one record on the page holds, and no other record,
    removes that record. *)
Lemma unique_token_run request st token key :
  assoc "token" (searchParams request) = Some token ->
  token <> EmptyString ->
  well_formed st ->
  key ∈ scan_order st ->
  token_matches st key token ->
  (forall k, token_matches st k token -> k = key) ->
  handleUnsubscribe request st
  = (Ok (html_response 200 "Unsubscribed" "You have been unsubscribed from job alerts."),
     delete key st).
Proof.
  intros Ht Hne Hwf Hin Hm Huniq.
  rewrite (handleUnsubscribe_run _ _ _ Ht Hne).
  destruct (unsubscribe_scan_listable token _ st (well_formed_scan st Hwf))
    as [[_ Hall]|(pre & k & post & _ & _ & Hk & ->)].
  - exfalso. rewrite Forall_forall in Hall.
    apply (passed_over_no_match st key token); [| exact Hm].
    now apply Hall.
  - now rewrite (Huniq k Hk).
Qed.

(** A token that no record holds is answered 404. *)
Lemma unknown_token_run request st token :
  assoc "token" (searchParams request) = Some token ->
  token <> EmptyString ->
  well_formed st ->
  (forall k, ~ token_matches st k token) ->
  handleUnsubscribe request st
  = (Ok (html_response 404 "Not Found" "Subscription not found or already unsubscribed."),
     st).
Proof.
  intros Ht Hne Hwf Hno.
  rewrite (handleUnsubscribe_run _ _ _ Ht Hne).
  destruct (unsubscribe_scan_listable token _ st (well_formed_scan st Hwf))
    as [[-> _]|(pre & k & post & _ & _ & Hk & _)]; [reflexivity |].
  exfalso. now apply (Hno k).
Qed.

Lemma well_formed_delete st key : well_formed st -> well_formed (delete key st).
Proof.
  intros Hwf k text Hl Hne. apply lookup_delete_Some in Hl as [_ Hl]. now apply (Hwf k text).
Qed.

Lemma inserted_record_matches (st : store) key token subscribed_at :
  token_matches (<[key := record_text token subscribed_at]> st) key token.
Proof. exists (VString subscribed_at). apply inserted_record_is. Qed.





End WellFormed.



(** X8: Subscribe followed by Unsubscribe with the token of the new record
    undoes the subscription.  For a valid email of at most 512 bytes
    without a key in a well-formed store of less than a page of keys, and a
    fresh non-empty token, the store is afterwards exactly what it was
    before, and an authorized listing returns no entry for the email. *)
Theorem X8_subscribe_then_unsubscribe_restores_the_store
    (subscribe unsubscribe listing : Request) (API_SECRET : option string)
    (rt : Runtime) (st : store) (e : string) :
  request_email subscribe = Ok (VString e) ->
  isValidEmail (VString e) = Ok true ->
  (KV.utf8_length (toLowerCase e) <= 512)%nat ->
  st !! toLowerCase e = None ->
  well_formed st ->
  canonical_numbers st ->
  (size st < KV.page_size)%nat ->
  assoc "token" (searchParams unsubscribe) = Some (randomUUID rt) ->
  randomUUID rt <> EmptyString ->
  (forall k, ~ token_matches st k (randomUUID rt)) ->
  (exists s, assoc "key" (searchParams listing) = Some s /\ API_SECRET = Some s) ->
  let st1 := (handleSubscribe subscribe rt st).2 in
  st1 = <[toLowerCase e := record_text (randomUUID rt) (toISOString rt)]> st /\
  handleUnsubscribe unsubscribe st1
  = (Ok (html_response 200 "Unsubscribed" "You have been unsubscribed from job alerts."),
     st) /\
  exists r subscribers,
    handleListSubscribers listing API_SECRET st = (Ok r, st) /\
    body r = JSON_stringify (VObject [("subscribers", VArray subscribers)]) /\
    forall entry, entry ∈ subscribers ->
      get_prop entry "email" <> Ok (VString (toLowerCase e)).
Proof.
  intros Hreq Hv Hlen Hnone Hwf Hc Hsize Htok Hne Hfresh Hauth st1.
  apply isValidEmail_string in Hv.
  destruct (key_of_valid e Hv) as (Htrim & _ & _).
  rewrite <- Htrim in Hlen. apply refused_false in Hlen.
  destruct (subscribe_valid subscribe rt st e Hreq Hv (or_intror Hlen)) as (r0 & Hrun & _).
  rewrite Htrim, Hnone in Hrun. simpl in Hrun.
  assert (Hst1 : st1 = <[toLowerCase e := record_text (randomUUID rt) (toISOString rt)]> st).
  { unfold st1. now rewrite Hrun. }
  split; [exact Hst1 |]. split.
  - rewrite (unique_token_run unsubscribe st1 (randomUUID rt) (toLowerCase e) Htok Hne).
    + rewrite Hst1. now rewrite delete_insert_id.
    + rewrite Hst1. now apply well_formed_insert_record.
    + apply scan_order_whole.
      * rewrite Hst1. now apply size_insert_page.
      * rewrite Hst1, lookup_insert_eq. eauto.
    + rewrite Hst1. apply inserted_record_matches.
    + intros k Hk. destruct (decide (k = toLowerCase e)) as [->|Hd]; [reflexivity |].
      exfalso. apply (Hfresh k).
      apply (token_matches_lookup st1); [| exact Hk].
      rewrite Hst1. now apply lookup_insert_ne.
  - apply differs_false in Hauth.
    destruct (listing_returns listing API_SECRET st Hauth Hwf Hc) as (subscribers & Hlist & Hall).
    eexists _, subscribers. split; [exact Hlist |]. split; [reflexivity |].
    intros entry Hin.
    destruct (Forall2_elem_of_r _ _ _ _ Hall Hin) as (key & Hkey & t & a & _ & ->).
    apply present_keys_elem in Hkey as [_ Hp].
    simpl. intros [= E]. rewrite E, Hnone in Hp. discriminate.
Qed.

Lemma X8_witness :
  let st : store := <["ann@example.org" := record_text "tok-1" "2024-05-01T10:00:00.000Z"]> ∅ in
  let rt := runtime "tok-2" "2024-06-01T10:00:00.000Z" in
  let st1 := (handleSubscribe (subscribe_request "Bea@Example.org") rt st).2 in
  st1 = <["bea@example.org" := record_text "tok-2" "2024-06-01T10:00:00.000Z"]> st /\
  handleUnsubscribe (unsubscribe_request "tok-2") st1
  = (Ok (html_response 200 "Unsubscribed" "You have been unsubscribed from job alerts."),
     st) /\
  exists r subscribers,
    handleListSubscribers (subscribers_request "s3cret") (Some "s3cret") st = (Ok r, st) /\
    body r = JSON_stringify (VObject [("subscribers", VArray subscribers)]) /\
    forall entry, entry ∈ subscribers ->
      get_prop entry "email" <> Ok (VString "bea@example.org").
Proof.
  intros st rt.
  apply (X8_subscribe_then_unsubscribe_restores_the_store
           (subscribe_request "Bea@Example.org") (unsubscribe_request "tok-2")
           (subscribers_request "s3cret") (Some "s3cret") rt st "Bea@Example.org").
  - reflexivity.
  - reflexivity.
  - vm_compute. lia.
  - reflexivity.
  - apply well_formed_insert_record, empty_well_formed.
  - apply canonical_numbers_insert_record, empty_canonical_numbers.
  - vm_compute. lia.
  - reflexivity.
  - discriminate.
  - intros k (a & text & parsed & Hl & _ & Hp & Ht & _).
    apply lookup_insert_Some in Hl as [[_ <-]|[_ Hl]].
    + rewrite JSON_parse_record in Hp. injection Hp as <-. discriminate Ht.
    + now rewrite lookup_empty in Hl.
  - exists "s3cret". split; reflexivity.
Defined.

(** X9: once a token has removed its only record, the same link does
    nothing more: in a well-formed store where one record holds the token,
    on the page that the scan visits, the first Unsubscribe removes it and
    the second is answered 404 and leaves the store as the first left
    it. *)
Theorem X9_second_unsubscribe_is_not_found
    (request : Request) (st : store) (token key : string) :
  assoc "token" (searchParams request) = Some token ->
  token <> EmptyString ->
  well_formed st ->
  key ∈ scan_order st ->
  token_matches st key token ->
  (forall k, token_matches st k token -> k = key) ->
  let st1 := (handleUnsubscribe request st).2 in
  st1 = delete key st /\
  handleUnsubscribe request st1
  = (Ok (html_response 404 "Not Found" "Subscription not found or already unsubscribed."),
     st1).
Proof.
  intros Ht Hne Hwf Hin Hm Huniq st1.
  assert (Hst1 : st1 = delete key st).
  { unfold st1. now rewrite (unique_token_run request st token key). }
  split; [exact Hst1 |].
  apply (unknown_token_run request st1 token Ht Hne).
  - rewrite Hst1. now apply well_formed_delete.
  - intros k Hk. rewrite Hst1 in Hk.
    destruct (decide (k = key)) as [->|Hd].
    + destruct Hk as (a & text & parsed & Hl & _). now rewrite lookup_delete_eq in Hl.
    + apply Hd, Huniq. apply (token_matches_lookup (delete key st)); [| exact Hk].
      now apply lookup_delete_ne.
Qed.

Lemma X9_witness :
  let st : store := <["ann@example.org" := record_text "tok-1" "2024-05-01T10:00:00.000Z"]> ∅ in
  let st1 := (handleUnsubscribe (unsubscribe_request "tok-1") st).2 in
  st1 = delete "ann@example.org" st /\
  handleUnsubscribe (unsubscribe_request "tok-1") st1
  = (Ok (html_response 404 "Not Found" "Subscription not found or already unsubscribed."),
     st1).
Proof.
  intros st.
  apply (X9_second_unsubscribe_is_not_found (unsubscribe_request "tok-1") st "tok-1").
  - reflexivity.
  - discriminate.
  - apply well_formed_insert_record, empty_well_formed.
  - change (scan_order st) with ["ann@example.org"]. apply elem_of_cons; now left.
  - apply inserted_record_matches.
  - intros k (a & text & parsed & Hl & _).
    apply lookup_insert_Some in Hl as [[<- _]|[_ Hl]]; [reflexivity |].
    now rewrite lookup_empty in Hl.
Defined.

(** X10: when Unsubscribe returns, its page tells what happened to the
    store.  The confirmation page (200) is returned only after the record of
    a key whose token field equals the token has been deleted; the 404 and
    400 pages are returned only with the store left as it was.  The page is
    one of three fixed texts and carries neither the token nor stored
    data. *)
Theorem X10_unsubscribe_page_matches_the_store
    (request : Request) (st : store) (r : Response) (st' : store) :
  handleUnsubscribe request st = (Ok r, st') ->
  (r = html_response 200 "Unsubscribed" "You have been unsubscribed from job alerts." /\
   exists token key,
     assoc "token" (searchParams request) = Some token /\
     token_matches st key token /\ st' = delete key st) \/
  (st' = st /\
   (r = html_response 404 "Not Found" "Subscription not found or already unsubscribed." \/
    r = html_response 400 "Error" "Invalid unsubscribe link.")).
Proof.
  destruct (present (assoc "token" (searchParams request))) eqn:Hp.
  - destruct (assoc "token" (searchParams request)) as [token|] eqn:Ht; [| discriminate].
    apply present_Some in Hp. rewrite (handleUnsubscribe_run _ _ _ Ht Hp).
    destruct (unsubscribe_scan_cases token (scan_order st) st)
      as [[Hr _]|[(pre & key & post & _ & _ & Hm & Hr)|[e Hr]]]; rewrite Hr.
    + intros [= <- <-]. right. split; [reflexivity | now left].
    + intros [= <- <-]. left. split; [reflexivity |]. exists token, key. auto.
    + discriminate.
  - rewrite (handleUnsubscribe_no_token _ _ Hp). intros [= <- <-].
    right. split; [reflexivity | now right].
Qed.

Lemma X10_witness :
  let st : store := <["ann@example.org" := record_text "tok-1" "2024-05-01T10:00:00.000Z"]> ∅ in
  (html_response 200 "Unsubscribed" "You have been unsubscribed from job alerts."
   = html_response 200 "Unsubscribed" "You have been unsubscribed from job alerts." /\
   exists token key,
     assoc "token" (searchParams (unsubscribe_request "tok-1")) = Some token /\
     token_matches st key token /\ delete "ann@example.org" st = delete key st) \/
  (delete "ann@example.org" st = st /\
   (html_response 200 "Unsubscribed" "You have been unsubscribed from job alerts."
    = html_response 404 "Not Found" "Subscription not found or already unsubscribed." \/
    html_response 200 "Unsubscribed" "You have been unsubscribed from job alerts."
    = html_response 400 "Error" "Invalid unsubscribe link.")).
Proof.
  intros st.
  apply (X10_unsubscribe_page_matches_the_store (unsubscribe_request "tok-1") st).
  reflexivity.
Defined.

(** X11: ListSubscribers only reads: whatever the key and the secret, and
    whether it answers 401, answers 200 or ends with an exception, the store
    afterwards is the store before. *)
Theorem X11_listing_never_writes
    (request : Request) (API_SECRET : option string) (st : store) :
  (handleListSubscribers request API_SECRET st).2 = st.
Proof. apply handleListSubscribers_store. Qed.



(** * The router and sequences of requests *)

Section Router.

(** What one request can do to the store, by route. *)
Lemma fetch_store_cases request API_SECRET rt st :
  (fetch request API_SECRET rt st).2 = st \/
  (pathname request = "/subscribe" /\ method request = "POST" /\
   exists e,
     matches email_pattern e = true /\
     present (st !! trim (toLowerCase e)) = false /\
     (fetch request API_SECRET rt st).2
     = <[trim (toLowerCase e) := record_text (randomUUID rt) (toISOString rt)]> st) \/
  (pathname request = "/unsubscribe" /\ method request = "GET" /\
   exists key, (fetch request API_SECRET rt st).2 = delete key st).
Proof.
  unfold fetch.
  destruct (String.eqb (method request) "OPTIONS"); [now left |].
  destruct (String.eqb (pathname request) "/subscribe" && String.eqb (method request) "POST")
    eqn:E1.
  { apply andb_prop in E1 as [Hp Hm]. apply String.eqb_eq in Hp, Hm.
    destruct (handleSubscribe_effect request rt st)
      as (r & [[Hrun _]|(e & _ & Hv & Hpr & Hrun & _)]); rewrite Hrun; simpl.
    - now left.
    - right; left. split; [exact Hp |]. split; [exact Hm |]. exists e. auto. }
  destruct (String.eqb (pathname request) "/unsubscribe" && String.eqb (method request) "GET")
    eqn:E2.
  { apply andb_prop in E2 as [Hp Hm]. apply String.eqb_eq in Hp, Hm.
    destruct (handleUnsubscribe_store request st) as [->|[key Hk]]; [now left |].
    right; right. split; [exact Hp |]. split; [exact Hm |]. now exists key. }
  destruct (String.eqb (pathname request) "/subscribers" && String.eqb (method request) "GET").
  { left. apply handleListSubscribers_store. }
  now left.
Qed.

Lemma fetch_keeps_worker_written request API_SECRET rt st :
  worker_written st -> worker_written (fetch request API_SECRET rt st).2.
Proof.
  intros Hw.
  destruct (fetch_store_cases request API_SECRET rt st)
    as [->|[(_ & _ & e & Hv & _ & ->)|(_ & _ & key & ->)]]; [exact Hw | |].
  - destruct (key_of_valid e Hv) as (Htrim & Hvalid & Hidem). rewrite Htrim.
    intros k text Hl. apply lookup_insert_Some in Hl as [[<- <-]|[_ Hl]].
    + split; [now apply isValidEmail_string |]. split; [exact Hidem | eauto].
    + now apply (Hw k text).
  - intros k text Hl. apply lookup_delete_Some in Hl as [_ Hl]. now apply (Hw k text).
Qed.

Lemma serve_keeps_worker_written API_SECRET requests st :
  worker_written st -> worker_written (serve API_SECRET requests st).
Proof.
  revert st. induction requests as [|[request rt] requests IH]; intros st Hw; [exact Hw |].
  simpl. apply IH. now apply fetch_keeps_worker_written.
Qed.

Lemma worker_written_well_formed st : worker_written st -> well_formed st.
Proof.
  intros Hw key text Hl _. destruct (Hw key text Hl) as (_ & _ & t & a & ->).
  eexists. split; [apply JSON_parse_record | discriminate].
Qed.

Lemma worker_written_canonical_numbers st : worker_written st -> canonical_numbers st.
Proof.
  intros Hw key text parsed Hl Hp. destruct (Hw key text Hl) as (_ & _ & t & a & ->).
  rewrite JSON_parse_record in Hp. injection Hp as <-. reflexivity.
Qed.

(** On a well-formed store whose numbers are in canonical form no handler
    throws. *)
Lemma fetch_returns API_SECRET request rt st :
  well_formed st -> canonical_numbers st ->
  exists r st', fetch request API_SECRET rt st = (Ok r, st').
Proof.
  intros Hwf Hc. unfold fetch.
  destruct (String.eqb (method request) "OPTIONS"); [unfold ret; eauto |].
  destruct (String.eqb (pathname request) "/subscribe" && String.eqb (method request) "POST").
  { destruct (handleSubscribe_headers request rt st) as (r & st' & Hrun & _). eauto. }
  destruct (String.eqb (pathname request) "/unsubscribe" && String.eqb (method request) "GET").
  { destruct (present (assoc "token" (searchParams request))) eqn:Hp.
    - destruct (assoc "token" (searchParams request)) as [token|] eqn:Ht; [| discriminate].
      apply present_Some in Hp. rewrite (handleUnsubscribe_run _ _ _ Ht Hp).
      destruct (unsubscribe_scan_listable token _ st (well_formed_scan st Hwf))
        as [[-> _]|(pre & k & post & _ & _ & _ & ->)]; eauto.
    - rewrite (handleUnsubscribe_no_token _ _ Hp). eauto. }
  destruct (String.eqb (pathname request) "/subscribers" && String.eqb (method request) "GET").
  { destruct (differs (assoc "key" (searchParams request)) API_SECRET) eqn:Hd.
    - rewrite (handleListSubscribers_unauthorized _ _ _ Hd). eauto.
    - destruct (listing_returns request API_SECRET st Hd Hwf Hc) as (subs & -> & _). eauto. }
  unfold ret. eauto.
Qed.

Lemma quote_shape s : quote s = String dquote (quote_chars s +:+ String dquote EmptyString).
Proof. reflexivity. Qed.

Lemma JSON_parse_quote s : JSON_parse (quote s) = Ok (VString s).
Proof.
  unfold JSON_parse. rewrite quote_shape.
  match goal with |- context [parse_fuel ?t] =>
    assert (Hm : exists m, parse_fuel t = S (S (S (S m)))) by apply parse_fuel_cons
  end.
  destruct Hm as [m ->].
  rewrite (parse_value_string _ _ s EmptyString (parse_chars_quote s EmptyString)).
  reflexivity.
Qed.

End Router.

(** X13: whatever requests the worker has answered since the store was
    empty, every key of the store is an email that passes validation and is
    in lower case, and every value is the text of a record. *)
Theorem X13_store_written_by_the_worker
    (API_SECRET : option string) (requests : list (Request * Runtime)) :
  worker_written (serve API_SECRET requests ∅).
Proof.
  apply serve_keeps_worker_written. intros key text Hl. now rewrite lookup_empty in Hl.
Qed.

(** X14: on a store that only the worker has written, no request ends with
    an uncaught exception: after any requests answered from the empty store,
    the next request gets a response. *)
Theorem X14_worker_never_throws_on_its_own_store
    (API_SECRET : option string) (requests : list (Request * Runtime))
    (request : Request) (rt : Runtime) :
  exists r st', fetch request API_SECRET rt (serve API_SECRET requests ∅) = (Ok r, st').
Proof.
  assert (Hw : worker_written (serve API_SECRET requests ∅)).
  { apply serve_keeps_worker_written. intros key text Hl. now rewrite lookup_empty in Hl. }
  apply fetch_returns;
    [now apply worker_written_well_formed | now apply worker_written_canonical_numbers].
Qed.

(** X15: only a POST to /subscribe adds to the store and only a GET to
    /unsubscribe removes from it.  After any other request every key that
    has a value had that value before; and after any request but a GET to
    /unsubscribe every key that had a non-empty value still has it. *)
Theorem X15_only_subscribe_adds_only_unsubscribe_removes
    (request : Request) (API_SECRET : option string) (rt : Runtime) (st : store) :
  (~ (pathname request = "/subscribe" /\ method request = "POST") ->
   forall key text,
     (fetch request API_SECRET rt st).2 !! key = Some text -> st !! key = Some text) /\
  (~ (pathname request = "/unsubscribe" /\ method request = "GET") ->
   forall key text,
     st !! key = Some text -> text <> EmptyString ->
     (fetch request API_SECRET rt st).2 !! key = Some text).
Proof.
  destruct (fetch_store_cases request API_SECRET rt st)
    as [->|[(Hp & Hm & e & _ & Hpr & ->)|(Hp & Hm & key & ->)]].
  - split; auto.
  - split; [intros Hn; exfalso; now apply Hn |].
    intros _ key text Hl Hne.
    destruct (decide (trim (toLowerCase e) = key)) as [E|E].
    + rewrite E, Hl in Hpr. apply present_Some in Hne. congruence.
    + now rewrite lookup_insert_ne.
  - split; [| intros Hn; exfalso; now apply Hn].
    intros _ k text Hl. now apply lookup_delete_Some in Hl as [_ Hl].
Qed.

(** X16: the text that Subscribe stores reads back as the record it was
    made from, whatever characters the token and the date hold (quotes,
    backslashes and control characters are escaped and unescaped); so does
    any string on its own. *)
Theorem X16_stored_record_reads_back (token subscribed_at : string) :
  let data := VObject [("token", VString token); ("subscribed_at", VString subscribed_at)] in
  (exists text,
     JSON_stringify data = Some text /\ JSON_parse text = Ok data /\
     get_prop data "token" = Ok (VString token)) /\
  (exists text,
     JSON_stringify (VString token) = Some text /\ JSON_parse text = Ok (VString token)).
Proof.
  intros data. split.
  - exists (record_text token subscribed_at).
    split; [reflexivity |]. split; [apply JSON_parse_record | reflexivity].
  - exists (quote token). split; [reflexivity | apply JSON_parse_quote].
Qed.

Lemma X15_witness :
  let st : store := <["ann@example.org" := record_text "tok-1" "2024-05-01T10:00:00.000Z"]> ∅ in
  (fetch (subscribe_request "ANN@example.org") (Some "s3cret")
     (runtime "tok-2" "2024-06-01T10:00:00.000Z") st).2 !! "ann@example.org"
  = Some (record_text "tok-1" "2024-05-01T10:00:00.000Z").
Proof.
  intros st.
  destruct (X15_only_subscribe_adds_only_unsubscribe_removes
              (subscribe_request "ANN@example.org") (Some "s3cret")
              (runtime "tok-2" "2024-06-01T10:00:00.000Z") st) as [_ H].
  apply H.
  - intros [Hp _]. discriminate Hp.
  - reflexivity.
  - discriminate.
Defined.

(** * The company-name snippet *)

Section Snippet.

Lemma trimStart_head s :
  match trimStart s with
  | EmptyString => True
  | String c _ => is_space c = false
  end.
Proof.
  induction s as [|c s IH]; simpl; [exact I |].
  destruct (is_space c) eqn:E; [exact IH | exact E].
Qed.

Lemma trimEnd_head s :
  match s with EmptyString => True | String c _ => is_space c = false end ->
  match trimEnd s with EmptyString => True | String c _ => is_space c = false end.
Proof.
  destruct s as [|c s]; simpl; [trivial |]. intros Hc.
  destruct (trimEnd s); [now rewrite Hc | exact Hc].
Qed.

Lemma trimStart_fixed s :
  match s with EmptyString => True | String c _ => is_space c = false end ->
  trimStart s = s.
Proof. destruct s as [|c s]; simpl; [trivial |]. now intros ->. Qed.

Lemma trimEnd_idempotent s : trimEnd (trimEnd s) = trimEnd s.
Proof.
  induction s as [|c s IH]; simpl; [reflexivity |].
  destruct (trimEnd s) as [|d r] eqn:E.
  - destruct (is_space c) eqn:Hc; simpl; [reflexivity | now rewrite Hc].
  - simpl in IH |- *. now rewrite IH.
Qed.

(** [trim] leaves a trimmed string as it is. *)
Lemma trim_idempotent s : trim (trim s) = trim s.
Proof.
  unfold trim.
  rewrite (trimStart_fixed (trimEnd (trimStart s))).
  - apply trimEnd_idempotent.
  - apply trimEnd_head, trimStart_head.
Qed.

Lemma length_positive s : (0 <? String.length s)%nat = true <-> s <> EmptyString.
Proof.
  destruct s as [|c s]; split; intros H.
  - discriminate H.
  - now contradiction H.
  - discriminate.
  - reflexivity.
Qed.

End Snippet.

(** X17: every company name that the snippet reports is the trimmed text of
    a matched element, is not empty and has no whitespace at either end
    (trimming it again changes nothing).  The text of the second selector is
    used only when the first gives no name, and a name taken from it does
    not contain "http". *)
Theorem X17_company_names_are_trimmed_and_not_empty
    (top_texts growth_texts : list string) (name : string) :
  In name (Scraper.companies top_texts growth_texts) ->
  name <> EmptyString /\ trim name = name /\
  ((In name (map trim top_texts) /\
    Scraper.companies top_texts growth_texts = Scraper.fromTopList top_texts) \/
   (Scraper.fromTopList top_texts = [] /\
    In name (map trim growth_texts) /\ Scraper.includes name "http" = false)).
Proof.
  unfold Scraper.companies.
  destruct (0 <? length (Scraper.fromTopList top_texts))%nat eqn:E.
  - intros H. unfold Scraper.fromTopList in H. apply filter_In in H as [Hin Hlen].
    apply length_positive in Hlen. split; [exact Hlen |].
    split.
    + apply in_map_iff in Hin as (t & <- & _). apply trim_idempotent.
    + left. split; [exact Hin | reflexivity].
  - intros H. unfold Scraper.fromGrowthList in H. apply filter_In in H as [Hin Hok].
    apply andb_prop in Hok as [Hlen Hhttp]. apply length_positive in Hlen.
    split; [exact Hlen |]. split.
    + apply in_map_iff in Hin as (t & <- & _). apply trim_idempotent.
    + right. split.
      * destruct (Scraper.fromTopList top_texts); [reflexivity | discriminate E].
      * split; [exact Hin | now apply negb_true_iff].
Qed.

Lemma X17_witness :
  "Stripe" <> EmptyString /\ trim "Stripe" = "Stripe" /\
  ((In "Stripe" (map trim ["  Stripe "; "   "; "Ramp"]) /\
    Scraper.companies ["  Stripe "; "   "; "Ramp"] ["https://x.io"; "Plaid"]
    = Scraper.fromTopList ["  Stripe "; "   "; "Ramp"]) \/
   (Scraper.fromTopList ["  Stripe "; "   "; "Ramp"] = [] /\
    In "Stripe" (map trim ["https://x.io"; "Plaid"]) /\
    Scraper.includes "Stripe" "http" = false)).
Proof.
  apply (X17_company_names_are_trimmed_and_not_empty
           ["  Stripe "; "   "; "Ramp"] ["https://x.io"; "Plaid"] "Stripe").
  simpl. left. reflexivity.
Defined.
